(** * translate.py: filling the empty [new] lines of Ren'Py translation files

    A shallow embedding of [src/translate.py] and the properties of its
    line scan, of its translation client and of its language resolution.

    Python text is a sequence of Unicode code points: a character is the
    number of its code point, a [str] is a list of them.  The regular
    expressions of [process_rpy_file] are transcribed opcode by opcode and
    run by a small backtracking engine with the greedy-first order of
    CPython's [sre]; [re.sub]'s replacement template is parsed as
    [re/_parser.py: parse_template] does (CPython 3.12).  The remote
    service, the environment variable and the file system are the world
    the functions run in. *)

From Stdlib Require Import String Ascii.
From Stdlib Require Import List NArith Arith Bool Lia.
Import ListNotations.

(* ================================================================== *)
(** ** Text *)

Module Text.

Local Open Scope N_scope.

Definition char := N.
Definition str := list char.

(** A string literal of ASCII characters read as Python text: one code
    point for each character. *)
Definition lit (s : string) : str :=
  List.map N_of_ascii (list_ascii_of_string s).

Definition char_eqb (a b : char) : bool := N.eqb a b.

Fixpoint str_eqb (a b : str) : bool :=
  match a, b with
  | [], [] => true
  | x :: a', y :: b' => char_eqb x y && str_eqb a' b'
  | _, _ => false
  end.

Definition LF : char := 10.
Definition CR : char := 13.
Definition quote : char := 34.
Definition backslash : char := 92.

Definition in_range (lo hi c : char) : bool := (lo <=? c) && (c <=? hi).

(** [Py_UNICODE_ISSPACE]: what [\s] matches in a [str] pattern and what
    [str.strip()] removes. *)
Definition is_space (c : char) : bool :=
  in_range 9 13 c || in_range 28 32 c || char_eqb c 133 || char_eqb c 160
  || char_eqb c 5760 || in_range 8192 8202 c || char_eqb c 8232
  || char_eqb c 8233 || char_eqb c 8239 || char_eqb c 8287
  || char_eqb c 12288.

(** [Py_UNICODE_ISLINEBREAK]: the line boundaries of [str.splitlines]. *)
Definition is_linebreak (c : char) : bool :=
  in_range 10 13 c || in_range 28 30 c || char_eqb c 133
  || char_eqb c 8232 || char_eqb c 8233.

Fixpoint takewhile (p : char -> bool) (s : str) : str :=
  match s with
  | c :: r => if p c then c :: takewhile p r else []
  | [] => []
  end.

Fixpoint dropwhile (p : char -> bool) (s : str) : str :=
  match s with
  | c :: r => if p c then dropwhile p r else s
  | [] => []
  end.

(** Whether [s.strip()] is the empty string. *)
Definition strip_is_empty (s : str) : bool := forallb is_space s.

(** [str.splitlines()]: [cur] is the line being read.  A line boundary
    closes the line, CR LF counts as one boundary, and no empty line is
    added after a final boundary. *)
Fixpoint splitlines_from (cur : str) (s : str) : list str :=
  match s with
  | [] => match cur with [] => [] | _ => [cur] end
  | c :: r =>
      if is_linebreak c then
        cur :: (if char_eqb c CR
                then match r with
                     | d :: r' => if char_eqb d LF then splitlines_from [] r'
                                  else splitlines_from [] r
                     | [] => splitlines_from [] r
                     end
                else splitlines_from [] r)
      else splitlines_from (cur ++ [c]) r
  end.

Definition splitlines (s : str) : list str := splitlines_from [] s.

(** [join] with a line feed as separator (line 109). *)
Fixpoint join_lines (ls : list str) : str :=
  match ls with
  | [] => []
  | [l] => l
  | l :: rest => l ++ LF :: join_lines rest
  end.

(** Text-mode reading ([newline=None]): CR LF and CR arrive as LF. *)
Fixpoint universal_newlines (s : str) : str :=
  match s with
  | [] => []
  | c :: r =>
      if char_eqb c CR then
        LF :: match r with
              | d :: r' => if char_eqb d LF then universal_newlines r'
                           else universal_newlines r
              | [] => []
              end
      else c :: universal_newlines r
  end.

(** Case mapping.  Python's [str.lower] and [str.upper] follow the Unicode
    tables; this table is exact on Basic Latin (U+0000..U+007F) and on
    U+212A KELVIN SIGN, whose lower case is the Latin letter k.  Other
    cased code points are not tabulated and are left as they are. *)
Definition lower_char (c : char) : char :=
  if in_range 65 90 c then c + 32
  else if char_eqb c 8490 then 107
  else c.

Definition upper_char (c : char) : char :=
  if in_range 97 122 c then c - 32 else c.

Definition lower (s : str) : str := List.map lower_char s.
Definition upper (s : str) : str := List.map upper_char s.

Definition is_ascii (s : str) : bool := forallb (fun c => c <? 128) s.

(** Text whose only line boundaries are line feeds. *)
Definition only_LF_breaks (s : str) : bool :=
  forallb (fun c => negb (is_linebreak c) || char_eqb c LF) s.

(** Text that does not end with a line feed. *)
Definition no_final_LF (s : str) : bool := negb (char_eqb (last s 0%N) LF).

End Text.
Import Text.

(* ================================================================== *)
(** ** Regular expressions *)

Module Re.

(** One-character matchers. *)
Inductive cls :=
| Literal (c : char)      (* the character itself *)
| Space                   (* \s *)
| Any.                    (* .  (no DOTALL: everything but LF) *)

Definition accepts (k : cls) (c : char) : bool :=
  match k with
  | Literal d => char_eqb c d
  | Space => is_space c
  | Any => negb (char_eqb c LF)
  end.

(** Compiled pattern: a sequence of opcodes, as [sre] has it. *)
Inductive op :=
| AtBeginning                       (* ^ *)
| One (k : cls)
| MaxRepeat (min : nat) (k : cls)   (* greedy k* (min 0) and k+ (min 1) *)
| MarkOpen                          (* ( of group 1 *)
| MarkClose.                        (* ) of group 1 *)

Definition pattern := list op.

(** Result of a match: where it ends and the span of group 1. *)
Record found := Found { m_end : nat; g_start : nat; g_end : nat }.

(** Greedy repetition with backtracking: take one more character if the
    class accepts it and the rest of the pattern then matches; otherwise
    stop here, provided [min] characters were taken. *)
Fixpoint max_repeat (k : cls) (min : nat)
         (rest : nat -> str -> option found)
         (taken pos : nat) (s : str) : option found :=
  let stop := if min <=? taken then rest pos s else None in
  match s with
  | c :: s' =>
      if accepts k c then
        match max_repeat k min rest (S taken) (S pos) s' with
        | Some r => Some r
        | None => stop
        end
      else stop
  | [] => stop
  end.

(** [run ops gs ge pos s]: match [ops] against [s], the text from
    position [pos] on; [gs], [ge] are the marks of group 1 so far. *)
Fixpoint run (ops : pattern) (gs ge pos : nat) (s : str) : option found :=
  match ops with
  | [] => Some (Found pos gs ge)
  | AtBeginning :: ops' =>
      if pos =? 0 then run ops' gs ge pos s else None
  | One k :: ops' =>
      match s with
      | c :: s' => if accepts k c then run ops' gs ge (S pos) s' else None
      | [] => None
      end
  | MaxRepeat min k :: ops' =>
      max_repeat k min (fun pos' s' => run ops' gs ge pos' s') 0 pos s
  | MarkOpen :: ops' => run ops' pos ge pos s
  | MarkClose :: ops' => run ops' gs pos pos s
  end.

Definition slice (a b : nat) (s : str) : str := firstn (b - a) (skipn a s).

(** [pattern.match(s)] followed by [.group(1)]; [None] when there is no
    match. *)
Definition match_group1 (p : pattern) (s : str) : option str :=
  match run p 0 0 0 s with
  | Some r => Some (slice (g_start r) (g_end r) s)
  | None => None
  end.

(** *** How the patterns of the script are put together *)

(** The characters of a keyword, one literal each. *)
Definition keyword (kw : str) : pattern := List.map (fun c => One (Literal c)) kw.

Definition literals (s : string) : pattern := keyword (lit s).

(** The part the three patterns share: white space, a quote, the
    payload, a quote. *)
Definition quoted (marks : bool) : pattern :=
  [MaxRepeat 1 Space; One (Literal quote)]
  ++ (if marks then [MarkOpen] else [])
  ++ [MaxRepeat 0 Any]
  ++ (if marks then [MarkClose] else [])
  ++ [One (Literal quote)].

(** A declaration pattern: start of the line, white space, the keyword
    and the quoted payload as group 1. *)
Definition declaration (kw : str) : pattern :=
  AtBeginning :: MaxRepeat 0 Space :: keyword kw ++ quoted true.

(** *** Replacement templates *)

(** A parsed template: literal characters and references to group 0, the
    only group a pattern without parentheses has. *)
Inductive titem :=
| TChar (c : char)
| TWhole.

Local Open Scope N_scope.

Definition is_digit (c : char) : bool := in_range 48 57 c.
Definition is_octdigit (c : char) : bool := in_range 48 55 c.
Definition is_ascii_letter (c : char) : bool :=
  in_range 65 90 c || in_range 97 122 c.
Definition digit_val (c : char) : N := c - 48.

(** [ESCAPES] of [re/_parser.py]. *)
Definition escape_of (c : char) : option char :=
  if char_eqb c 97 then Some 7          (* \a *)
  else if char_eqb c 98 then Some 8     (* \b *)
  else if char_eqb c 102 then Some 12   (* \f *)
  else if char_eqb c 110 then Some 10   (* \n *)
  else if char_eqb c 114 then Some 13   (* \r *)
  else if char_eqb c 116 then Some 9    (* \t *)
  else if char_eqb c 118 then Some 11   (* \v *)
  else if char_eqb c 92 then Some 92    (* \\ *)
  else None.

Inductive pmode :=
| Normal
| GroupName (zeros : nat).   (* inside \g<...>, that many 0 read *)

(** [parse_template] for a pattern without groups; [None] is the
    exception it raises ([re.error], or [IndexError] for an unknown group
    name).  Inside [\g<...>] only a name made of the digit 0 refers to an
    existing group. *)
Fixpoint parse_template (m : pmode) (s : str) : option (list titem) :=
  let cons_to i r :=
    match parse_template Normal r with
    | Some t => Some (i ++ t)
    | None => None
    end in
  match m with
  | GroupName z =>
      match s with
      | [] => None
      | c :: r =>
          if char_eqb c 48 then parse_template (GroupName (S z)) r
          else if char_eqb c 62 then
            match z with
            | O => None
            | S _ => cons_to [TWhole] r
            end
          else None
      end
  | Normal =>
      match s with
      | [] => Some []
      | c :: r =>
          if negb (char_eqb c backslash) then cons_to [TChar c] r
          else
            match r with
            | [] => None                       (* bad escape (end of pattern) *)
            | e :: r1 =>
                if char_eqb e 103 then          (* \g *)
                  match r1 with
                  | lt :: r2 =>
                      if char_eqb lt 60 then parse_template (GroupName 0%nat) r2
                      else None                 (* missing < *)
                  | [] => None
                  end
                else if char_eqb e 48 then      (* \0, \0o, \0oo *)
                  match r1 with
                  | d1 :: r2 =>
                      if is_octdigit d1 then
                        match r2 with
                        | d2 :: r3 =>
                            if is_octdigit d2
                            then cons_to
                                   [TChar (N.land (8 * digit_val d1 + digit_val d2) 255)]
                                   r3
                            else cons_to [TChar (digit_val d1)] r2
                        | [] => cons_to [TChar (digit_val d1)] r2
                        end
                      else cons_to [TChar 0] r1
                  | [] => cons_to [TChar 0] r1
                  end
                else if is_digit e then         (* \1 .. \9 *)
                  match r1 with
                  | d1 :: r2 =>
                      match r2 with
                      | d2 :: r3 =>
                          if is_octdigit e && is_octdigit d1 && is_octdigit d2
                          then
                            let v := 64 * digit_val e + 8 * digit_val d1
                                     + digit_val d2 in
                            if 255 <? v then None
                            else cons_to [TChar v] r3
                          else None             (* invalid group reference *)
                      | [] => None
                      end
                  | [] => None
                  end
                else
                  match escape_of e with
                  | Some x => cons_to [TChar x] r1
                  | None =>
                      if is_ascii_letter e then None   (* bad escape *)
                      else cons_to [TChar backslash; TChar e] r1
                  end
            end
      end
  end.

Definition expand (t : list titem) (whole : str) : str :=
  flat_map (fun i => match i with TChar c => [c] | TWhole => whole end) t.

(** The scan of [re.sub]: leftmost matches, one after the other, each
    replaced by the expanded template.  [skip] counts the characters of
    the current match still to pass over.  (Patterns matching the empty
    string are not covered; the one pattern used with [sub] starts with a
    literal.) *)
Fixpoint sub_scan (p : pattern) (t : list titem) (skip pos : nat) (s : str)
  : str :=
  match s with
  | [] => []
  | c :: s' =>
      match skip with
      | S k => sub_scan p t k (S pos) s'
      | O =>
          match run p 0 0 pos s with
          | Some r =>
              expand t (firstn (m_end r - pos)%nat s)
                ++ sub_scan p t (m_end r - pos - 1)%nat (S pos) s'
          | None => c :: sub_scan p t 0%nat (S pos) s'
          end
      end
  end.

(** [re.sub(p, repl, s)]: the template is compiled first, so a bad
    template raises whether or not the pattern occurs. *)
Definition sub (p : pattern) (repl : str) (s : str) : option str :=
  match parse_template Normal repl with
  | Some t => Some (sub_scan p t 0%nat 0%nat s)
  | None => None
  end.

End Re.

(* ================================================================== *)
(** ** The script *)

Module Translate.

Import Re.

(** *** The world *)

(** The form parameters of the POST request. *)
Record request := Request {
  auth_key : str;
  text : str;
  target_lang : str;
  formality : option str          (* the key is absent unless forced *)
}.

(** What lines 53-57 see of one exchange with the service. *)
Inductive reply :=
| RequestException            (* raised by post, raise_for_status or json *)
| Translations (first : str)  (* the text of the first translation *)
| BadPayload.                 (* the indexing of line 57 raises *)

Inductive event :=
| CallTranslate (txt lang form : str)   (* translate_text is entered *)
| Post (r : request)                    (* requests.post *)
| PrintError.                           (* line 59 *)

Inductive exn :=
| ValueError            (* line 40 *)
| LookupError           (* KeyError, IndexError or TypeError of line 57 *)
| TemplateError         (* raised by re.sub on the replacement string *)
| FileNotFoundError.

Definition path := str.

Record world := World {
  DEEPL_API_KEY : option str;      (* os.getenv at import time *)
  files : path -> option str;      (* decoded text of each file *)
  trace : list event               (* what has happened, oldest first *)
}.

Inductive result (A : Type) :=
| Ok (a : A)
| Raised (e : exn).
Arguments Ok {A} a.
Arguments Raised {A} e.

(** Computations: state passing over the world, with exceptions. *)
Definition M (A : Type) := world -> result A * world.

Definition ret {A} (a : A) : M A := fun w => (Ok a, w).
Definition raise {A} (e : exn) : M A := fun w => (Raised e, w).
Definition bind {A B} (m : M A) (f : A -> M B) : M B :=
  fun w => match m w with
           | (Ok a, w') => f a w'
           | (Raised e, w') => (Raised e, w')
           end.

Notation "x <- m ;; k" := (bind m (fun x => k))
  (at level 61, m at next level, right associativity).
Notation "m ;;; k" := (bind m (fun _ => k))
  (at level 61, right associativity).

Definition emit (e : event) : M unit :=
  fun w => (Ok tt, World (DEEPL_API_KEY w) (files w) (trace w ++ [e])).

Definition getenv_key : M (option str) := fun w => (Ok (DEEPL_API_KEY w), w).

Definition read_text (p : path) : M str :=
  fun w => match files w p with
           | Some c => (Ok (universal_newlines c), w)
           | None => (Raised FileNotFoundError, w)
           end.

(** [os.linesep] is LF and the text can be encoded (it holds no lone
    surrogate, as no text read from a file does): the text is stored as
    it is. *)
Definition write_text (p : path) (c : str) : M unit :=
  fun w => (Ok tt,
            World (DEEPL_API_KEY w)
                  (fun q => if str_eqb q p then Some c else files w q)
                  (trace w)).

(** [not DEEPL_API_KEY]: unset, or set to the empty string. *)
Definition key_absent (k : option str) : bool :=
  match k with
  | None => true
  | Some [] => true
  | Some (_ :: _) => false
  end.

Section Program.

(** The remote service: its answer to a request, given all that happened
    before. *)
Variable service : list event -> request -> reply.

Definition requests_post (r : request) : M reply :=
  fun w => (Ok (service (trace w) r),
            World (DEEPL_API_KEY w) (files w) (trace w ++ [Post r])).

Definition LANGUAGE_MAP : list (str * str) :=
  [ (lit "german", lit "DE");
    (lit "spanish", lit "ES");
    (lit "english", lit "EN");
    (lit "french", lit "FR");
    (lit "italian", lit "IT");
    (lit "polish", lit "PL") ].

Fixpoint dict_get (d : list (str * str)) (k : str) : option str :=
  match d with
  | [] => None
  | (k', v) :: d' => if str_eqb k k' then Some v else dict_get d' k
  end.

(** Lines 42-50: the parameters of the request. *)
Definition params_of (key txt lang form : str) : request :=
  let f := lower form in
  Request key txt lang
          (if str_eqb f (lit "more") || str_eqb f (lit "less")
           then Some f else None).

(** Lines 39-60. *)
Definition translate_text (txt lang form : str) : M str :=
  emit (CallTranslate txt lang form) ;;;
  key <- getenv_key ;;
  if key_absent key then raise ValueError
  else
    let auth := match key with Some k => k | None => [] end in
    r <- requests_post (params_of auth txt lang form) ;;
    match r with
    | Translations first => ret first
    | BadPayload => raise LookupError
    | RequestException => emit PrintError ;;; ret txt
    end.

(** Line 72: ^ \s* old \s+ QUOTE ( .* ) QUOTE *)
Definition old_pattern : pattern :=
  [AtBeginning; MaxRepeat 0 Space] ++ literals "old"
  ++ [MaxRepeat 1 Space; One (Literal quote);
      MarkOpen; MaxRepeat 0 Any; MarkClose; One (Literal quote)].

(** Line 74: ^ \s* new \s+ QUOTE ( .* ) QUOTE *)
Definition new_pattern : pattern :=
  [AtBeginning; MaxRepeat 0 Space] ++ literals "new"
  ++ [MaxRepeat 1 Space; One (Literal quote);
      MarkOpen; MaxRepeat 0 Any; MarkClose; One (Literal quote)].

(** Line 98: new \s+ QUOTE .* QUOTE *)
Definition sub_pattern : pattern :=
  literals "new"
  ++ [MaxRepeat 1 Space; One (Literal quote); MaxRepeat 0 Any;
      One (Literal quote)].

Definition old_match (line : str) : option str := match_group1 old_pattern line.
Definition new_match (line : str) : option str := match_group1 new_pattern line.

(** The replacement string of line 98: new, a space, and the translation
    between quotes. *)
Definition new_line_template (translation : str) : str :=
  lit "new " ++ quote :: translation ++ [quote].

(** A declaration line as the script files have them: [kw], a space and
    the payload between quotes, after [indent]. *)
Definition decl (indent : str) (kw : string) (payload : str) : str :=
  indent ++ lit kw ++ 32%N :: quote :: payload ++ [quote].

(** The variables of the loop. *)
Record scan := Scan {
  buffer_old_text : option str;
  output_lines : list str
}.

(** Lines 81-106: one iteration. *)
Definition loop_body (lang form : str) (st : scan) (line : str) : M scan :=
  match old_match line with
  | Some t => ret (Scan (Some t) (output_lines st ++ [line]))
  | None =>
      match new_match line, buffer_old_text st with
      | Some current_new_text, Some buffered =>
          if strip_is_empty current_new_text then
            translation <- translate_text buffered lang form ;;
            match sub sub_pattern (new_line_template translation) line with
            | Some updated_line =>
                ret (Scan None (output_lines st ++ [updated_line]))
            | None => raise TemplateError
            end
          else ret (Scan None (output_lines st ++ [line]))
      | _, _ => ret (Scan (buffer_old_text st) (output_lines st ++ [line]))
      end
  end.

(** Line 80: the loop. *)
Fixpoint for_lines (lang form : str) (st : scan) (lines : list str) : M scan :=
  match lines with
  | [] => ret st
  | line :: lines' =>
      st' <- loop_body lang form st line ;;
      for_lines lang form st' lines'
  end.

(** Lines 77-78: the state before the first line. *)
Definition init : scan := Scan None [].

(** Lines 77-106 on the lines of a file: the output lines. *)
Definition process_lines (lang form : str) (lines : list str) : M (list str) :=
  st <- for_lines lang form init lines ;;
  ret (output_lines st).

(** Lines 76-109. *)
Definition process_rpy_file (rpy_path : path) (lang form : str) : M unit :=
  content <- read_text rpy_path ;;
  out <- process_lines lang form (splitlines content) ;;
  write_text rpy_path (join_lines out).

(** Lines 136-137. *)
Definition resolve_target_lang (language : str) : str :=
  let user_lang := lower language in
  match dict_get LANGUAGE_MAP user_lang with
  | Some code => code
  | None => upper user_lang
  end.

End Program.

End Translate.
Import Translate.

(* ================================================================== *)
(** ** Vocabulary of the properties *)

(** The pending source text as the specification describes it: set by a
    source declaration, dropped by a target declaration, kept by any other
    line. *)
Definition pending_step (buf : option str) (line : str) : option str :=
  match old_match line with
  | Some t => Some t
  | None => match new_match line with
            | Some _ => None
            | None => buf
            end
  end.

Definition pending_after (buf : option str) (lines : list str) : option str :=
  fold_left pending_step lines buf.

(** What one iteration may append for [line]: the line itself, or, for a
    target declaration with a blank payload, the line rewritten by
    [re.sub] for some translation. *)
Definition emitted_for (line o : str) : Prop :=
  o = line \/
  (old_match line = None /\
   exists p translation,
     new_match line = Some p /\ strip_is_empty p = true /\
     Re.sub sub_pattern (new_line_template translation) line = Some o).

Definition is_post (e : event) : bool :=
  match e with Post _ => true | _ => false end.

(** The world after a step taken without a key: same key, same files and
    no request among the new events. *)
Definition no_request_since (w w' : world) : Prop :=
  DEEPL_API_KEY w' = DEEPL_API_KEY w /\
  files w' = files w /\
  exists evs, trace w' = trace w ++ evs /\ filter is_post evs = [].

(** The payload ends at the last quote the dot can reach: no quote after
    it on the same line. *)
Definition last_quote (tail : str) : Prop :=
  forall a2 b2, quote :: tail = a2 ++ quote :: b2 ->
                a2 <> [] -> forallb (Re.accepts Re.Any) a2 = true -> False.

(* ================================================================== *)
(** ** Runs used as examples *)

Module Demo.

Definition DE := lit "DE".
Definition default := lit "default".
Definition indent := lit "    ".

(** A service that answers every request with the same translation. *)
Definition answers (t : str) : list event -> request -> reply :=
  fun _ _ => Translations t.

(** A service that cannot be reached. *)
Definition unreachable : list event -> request -> reply :=
  fun _ _ => RequestException.

Definition with_key : world := World (Some (lit "secret")) (fun _ => None) [].
Definition without_key : world := World None (fun _ => None) [].

Definition one_file (p : path) (content : str) : world :=
  World (Some (lit "secret"))
        (fun q => if str_eqb q p then Some content else None) [].

End Demo.

(* ================================================================== *)
(** ** The command line *)

Module Cli.

(** The namespace [parse_args] returns. *)
Record namespace := Namespace {
  language : str;        (* positional, "german" when left out *)
  all : bool;            (* --all *)
  formality_arg : str    (* --formality, "default" when left out *)
}.

(** What [main] prints, by line of the source. *)
Inductive notice :=
| NoSuchDirectory (d : path)      (* line 149 *)
| ProcessingDirectory (d : path)  (* line 156 *)
| Translating (f : path).         (* line 158 *)

Section Main.

Variable service : list event -> request -> reply.

(** The file tree as [pathlib] shows it.  No function of the script
    creates, removes or renames an entry, so these answers are the same
    all through a run. *)
Variable child : str -> path.              (* Path("game") / "tl" / name *)
Variable iterdir : option (list path).     (* the entries of game/tl;
                                              [None]: iterdir raises *)
Variable is_dir : path -> bool.
Variable path_exists : path -> bool.
Variable rglob_rpy : path -> list path.    (* lang_dir.rglob("*.rpy") *)

(** The state of [main]: the world and what was printed. *)
Definition outcome := (result unit * world * list notice)%type.

(** Lines 157-159. *)
Fixpoint for_rpy_files (target form : str) (fs : list path)
         (w : world) (out : list notice) : outcome :=
  match fs with
  | [] => (Ok tt, w, out)
  | rpy_file :: fs' =>
      let out1 := out ++ [Translating rpy_file] in
      match process_rpy_file service rpy_file target form w with
      | (Ok _, w1) => for_rpy_files target form fs' w1 out1
      | (Raised e, w1) => (Raised e, w1, out1)
      end
  end.

(** Lines 153-159. *)
Fixpoint for_lang_dirs (target form : str) (dirs : list path)
         (w : world) (out : list notice) : outcome :=
  match dirs with
  | [] => (Ok tt, w, out)
  | lang_dir :: dirs' =>
      if negb (is_dir lang_dir) then for_lang_dirs target form dirs' w out
      else
        match for_rpy_files target form (rglob_rpy lang_dir) w
                            (out ++ [ProcessingDirectory lang_dir]) with
        | (Ok _, w1, out1) => for_lang_dirs target form dirs' w1 out1
        | stopped => stopped
        end
  end.

(** Lines 133-159. *)
Definition main (args : namespace) (w : world) : outcome :=
  let user_lang := lower (language args) in
  let target := resolve_target_lang (language args) in
  if all args then
    match iterdir with
    | None => (Raised FileNotFoundError, w, [])
    | Some entries =>
        for_lang_dirs target (formality_arg args) (filter is_dir entries) w []
    end
  else
    let lang_dir := child user_lang in
    if negb (path_exists lang_dir)
    then (Ok tt, w, [NoSuchDirectory lang_dir])
    else for_lang_dirs target (formality_arg args) [lang_dir] w [].

(** The files a run with these arguments hands to [process_rpy_file] if
    nothing stops it. *)
Definition visited (args : namespace) : list path :=
  if all args then
    match iterdir with
    | None => []
    | Some entries => flat_map rglob_rpy (filter is_dir entries)
    end
  else
    let lang_dir := child (lower (language args)) in
    if path_exists lang_dir && is_dir lang_dir then rglob_rpy lang_dir else [].

End Main.

End Cli.

(* ================================================================== *)
(** ** Vocabulary of the further properties *)

(** A line has the shape of a declaration with keyword [kw] and payload
    [t]: white space, the keyword, white space, and the payload between
    the first quote and the last quote of the line. *)
Definition declaration_shape (kw line t : str) : Prop :=
  exists ws sp tail,
    line = ws ++ kw ++ sp ++ quote :: t ++ quote :: tail /\
    forallb is_space ws = true /\
    sp <> [] /\ forallb is_space sp = true /\
    ~ In quote tail.

(** The source texts a scan sends for translation, in order: at each
    target declaration with a blank payload, the payload of the latest
    source declaration since the last target declaration. *)
Fixpoint to_translate (buf : option str) (lines : list str) : list str :=
  match lines with
  | [] => []
  | line :: rest =>
      match old_match line with
      | Some t => to_translate (Some t) rest
      | None =>
          match new_match line, buf with
          | Some p, Some b =>
              if strip_is_empty p then b :: to_translate None rest
              else to_translate None rest
          | Some _, None => to_translate None rest
          | None, _ => to_translate buf rest
          end
      end
  end.

(** A line without a line boundary. *)
Definition one_line (l : str) : bool :=
  forallb (fun c => negb (is_linebreak c)) l.

(** Lines of which the last one, if there is one, is not empty. *)
Fixpoint no_final_empty (ls : list str) : bool :=
  match ls with
  | [] => true
  | [l] => match l with [] => false | _ :: _ => true end
  | _ :: rest => no_final_empty rest
  end.

(** Source declarations, and target declarations with a blank payload. *)
Definition is_source (l : str) : bool :=
  match old_match l with Some _ => true | None => false end.

Definition is_blank_target (l : str) : bool :=
  match new_match l with Some p => strip_is_empty p | None => false end.

(** A service whose replies can always be read and whose translations
    hold no backslash. *)
Definition plain_replies (service : list event -> request -> reply) : Prop :=
  forall happened r,
    match service happened r with
    | BadPayload => False
    | Translations t => ~ In backslash t
    | RequestException => True
    end.

(** An event that, if it is a request, was made for this run: with the
    credential of the world, for the language [lang], and with a
    formality parameter that is absent, more or less. *)
Definition request_of_run (w : world) (lang : str) (e : event) : Prop :=
  match e with
  | Post r =>
      DEEPL_API_KEY w = Some (auth_key r) /\ auth_key r <> [] /\
      target_lang r = lang /\
      (formality r = None \/ formality r = Some (lit "more")
       \/ formality r = Some (lit "less"))
  | _ => True
  end.

(** From [w] to [w'] events were only added, and every request among
    them was made for this run. *)
Definition requests_for (lang : str) (w w' : world) : Prop :=
  DEEPL_API_KEY w' = DEEPL_API_KEY w /\
  exists evs, trace w' = trace w ++ evs /\
              Forall (request_of_run w lang) evs.

(** What a run may do to the files: the credential stays, files outside
    [touch] keep their content, and no file appears or disappears. *)
Definition only_rewrites (touch : list path) (w w' : world) : Prop :=
  DEEPL_API_KEY w' = DEEPL_API_KEY w /\
  (forall q, ~ In q touch -> files w' q = files w q) /\
  (forall q, files w' q = None <-> files w q = None).

(** The files [main] announced: each one is handed to
    [process_rpy_file] right after its notice. *)
Definition announced (out : list Cli.notice) : list path :=
  flat_map (fun n => match n with Cli.Translating f => [f] | _ => [] end) out.

(** The files of a list handed to [process_rpy_file] one after the
    other, each run starting in the world the run before left; the first
    run that raises ends it. *)
Fixpoint process_each (service : list event -> request -> reply)
         (target form : str) (fs : list path) (w : world)
  : result unit * world :=
  match fs with
  | [] => (Ok tt, w)
  | f :: fs' =>
      match process_rpy_file service f target form w with
      | (Ok _, w1) => process_each service target form fs' w1
      | (Raised e, w1) => (Raised e, w1)
      end
  end.

(** What the run of a loop over the files [fs] says of [process_each]:
    the result and the world are those of [process_each] on the files;
    the files [done] the loop announced are the first of them, all of
    them when the loop returned; and when it raised, the last file
    announced is the one whose run raised, in the world the runs on the
    files before it left. *)
Definition ran_in_order (service : list event -> request -> reply)
           (target form : str) (fs : list path)
           (w : world) (r : result unit) (w' : world) (done : list path)
  : Prop :=
  process_each service target form fs w = (r, w') /\
  exists rest,
    fs = done ++ rest /\
    (r = Ok tt -> rest = []) /\
    (forall e, r = Raised e ->
       exists before f w1,
         done = before ++ [f] /\
         process_each service target form before w = (Ok tt, w1) /\
         process_rpy_file service f target form w1 = (Raised e, w')).

(** No lower-case letter of Basic Latin. *)
Definition no_lower_ascii (s : str) : bool :=
  forallb (fun c => negb (in_range 97%N 122%N c)) s.

(** A file tree used as example: game/tl holds the directories german and
    french and a file notes.txt; each directory has one script. *)
Module DemoTree.

Definition tl (name : string) : path := lit "game/tl/" ++ lit name.

Definition child (name : str) : path := lit "game/tl/" ++ name.

Definition iterdir : option (list path) :=
  Some [tl "german"; tl "notes.txt"; tl "french"].

Definition is_dir (p : path) : bool :=
  str_eqb p (tl "german") || str_eqb p (tl "french").

Definition path_exists (p : path) : bool :=
  is_dir p || str_eqb p (tl "notes.txt").

Definition script (d : path) : path := d ++ lit "/script.rpy".

Definition rglob_rpy (d : path) : list path := [script d].

Definition pair : str :=
  decl Demo.indent "old" (lit "Hi") ++ LF :: decl Demo.indent "new" [].

Definition world0 (key : option str) : world :=
  World key
        (fun q => if str_eqb q (script (tl "german"))
                     || str_eqb q (script (tl "french"))
                  then Some pair else None)
        [].

End DemoTree.

(* ================================================================== *)
(** ** The library functions at work *)

(** Values the interpreter gives for the same calls. *)

Example splitlines_mixed :
  splitlines (lit "a" ++ [CR; LF] ++ lit "b" ++ [CR; 8232%N; LF] ++ lit "c")
  = [lit "a"; lit "b"; []; []; lit "c"].
Proof. reflexivity. Qed.

Example splitlines_final_boundary :
  splitlines (lit "a" ++ [LF] ++ lit "b" ++ [LF]) = [lit "a"; lit "b"].
Proof. reflexivity. Qed.

Example match_is_greedy :
  old_match (lit "  old  " ++ quote :: lit "a" ++ quote :: lit " + "
             ++ quote :: lit "b" ++ quote :: lit " # c")
  = Some (lit "a" ++ quote :: lit " + " ++ quote :: lit "b").
Proof. reflexivity. Qed.

Example match_needs_space :
  new_match (lit "new" ++ [quote; quote]) = None.
Proof. reflexivity. Qed.

Example match_other_space :
  new_match ([160%N] ++ lit "new" ++ [12288%N; quote; 9%N; quote])
  = Some [9%N].
Proof. reflexivity. Qed.

Example sub_every_match :
  Re.sub sub_pattern (new_line_template (lit "x"))
         (lit "a new " ++ quote :: lit "b" ++ quote :: LF
          :: lit "new  " ++ [quote; quote])
  = Some (lit "a new " ++ quote :: lit "x" ++ quote :: LF
          :: lit "new " ++ quote :: lit "x" ++ [quote]).
Proof. reflexivity. Qed.

Example sub_whole_match :
  Re.sub sub_pattern (new_line_template (lit "\g<0>"))
         (lit "new " ++ quote :: lit "x" ++ [quote])
  = Some (lit "new " ++ quote :: lit "new " ++ quote :: lit "x"
          ++ [quote; quote]).
Proof. reflexivity. Qed.

Example sub_octal_escape :
  Re.sub sub_pattern (new_line_template (lit "\101\08"))
         (lit "new " ++ [quote; quote])
  = Some (lit "new " ++ quote :: lit "A" ++ 0%N :: lit "8" ++ [quote]).
Proof. reflexivity. Qed.

Example sub_kept_escape :
  Re.sub sub_pattern (new_line_template (backslash :: quote :: lit "hi"
                                         ++ [backslash; quote]))
         (lit "new " ++ [quote; quote])
  = Some (lit "new " ++ quote :: backslash :: quote :: lit "hi"
          ++ [backslash; quote; quote]).
Proof. reflexivity. Qed.

Example sub_bad_escape :
  Re.sub sub_pattern (new_line_template (lit "50\d")) (lit "no match here")
  = None.
Proof. reflexivity. Qed.

(* ================================================================== *)
(** ** Properties of the regular-expression engine *)

Section EngineFacts.

Import Re.

Lemma takewhile_dropwhile p s : takewhile p s ++ dropwhile p s = s.
Proof.
  induction s as [|c r IH]; simpl; [reflexivity|].
  destruct (p c); simpl; [now rewrite IH | reflexivity].
Qed.

(** A greedy repetition whose continuation refuses every character of the
    repeated class never backtracks: it stops after the longest run. *)
Lemma max_repeat_longest k min rest :
  (forall c pos s, accepts k c = true -> rest pos (c :: s) = None) ->
  forall s taken pos,
    max_repeat k min rest taken pos s =
    if min <=? taken + length (takewhile (accepts k) s)
    then rest (pos + length (takewhile (accepts k) s))
              (dropwhile (accepts k) s)
    else None.
Proof.
  intros Hrej s; induction s as [|c r IH]; intros taken pos; simpl.
  - now rewrite !Nat.add_0_r.
  - destruct (accepts k c) eqn:Hc; simpl.
    + rewrite IH.
      replace (S taken + length (takewhile (accepts k) r))
        with (taken + S (length (takewhile (accepts k) r))) by lia.
      replace (S pos + length (takewhile (accepts k) r))
        with (pos + S (length (takewhile (accepts k) r))) by lia.
      destruct (min <=? taken + S (length (takewhile (accepts k) r)));
        [|now rewrite Hrej; destruct (min <=? taken)].
      destruct (rest _ _); [reflexivity|].
      rewrite Hrej by assumption. now destruct (min <=? taken).
    + now rewrite !Nat.add_0_r.
Qed.

Lemma space_not_letter c d :
  is_space c = true -> is_space d = false -> char_eqb c d = false.
Proof.
  intros Hc Hd. unfold char_eqb. destruct (N.eqb_spec c d); [|reflexivity].
  subst. congruence.
Qed.

(** After the leading white space a declaration starts with its
    keyword. *)
Lemma run_decl_head kw0 ops s r :
  is_space kw0 = false ->
  run (AtBeginning :: MaxRepeat 0 Space :: One (Literal kw0) :: ops) 0 0 0 s
  = Some r ->
  exists rest, dropwhile is_space s = kw0 :: rest.
Proof.
  intros Hkw H. cbn [run Nat.eqb] in H.
  rewrite max_repeat_longest in H.
  - cbn [Nat.leb] in H.
    change (accepts Space) with is_space in H.
    destruct (dropwhile is_space s) as [|c rest] eqn:Hd; [discriminate|].
    cbn [accepts] in H.
    destruct (char_eqb c kw0) eqn:Hc; [|discriminate].
    apply N.eqb_eq in Hc. subst. now exists rest.
  - intros c pos s0 Hc. cbn [accepts] in *.
    destruct (char_eqb c kw0) eqn:E; [|reflexivity].
    apply N.eqb_eq in E. subst. congruence.
Qed.

End EngineFacts.

Section Greedy.

Import Re.

Variables (k : cls) (min : nat) (rest : nat -> str -> option found).

(** A repetition that fails has failed at every place it could stop. *)
Lemma max_repeat_none : forall s taken pos,
  max_repeat k min rest taken pos s = None ->
  forall a b, s = a ++ b -> forallb (accepts k) a = true ->
              min <= taken + length a ->
              rest (pos + length a) b = None.
Proof.
  induction s as [|c s IH]; intros taken pos H a b Hs Ha Hm.
  - destruct a; [|discriminate]. simpl in *. subst b.
    rewrite Nat.add_0_r in *. apply Nat.leb_le in Hm. now rewrite Hm in H.
  - destruct a as [|c' a].
    + simpl in Hs. subst b. simpl in *. rewrite Nat.add_0_r in *.
      apply Nat.leb_le in Hm. rewrite Hm in H.
      destruct (accepts k c); [|assumption].
      now destruct (max_repeat k min rest (S taken) (S pos) s).
    + injection Hs as <- ->. simpl in Ha. apply andb_true_iff in Ha.
      destruct Ha as [Hc Ha]. simpl in H. rewrite Hc in H.
      destruct (max_repeat k min rest (S taken) (S pos) (a ++ b)) eqn:E;
        [discriminate|].
      simpl. replace (pos + S (length a)) with (S pos + length a) by lia.
      eapply IH; [exact E|reflexivity|assumption|]. simpl in Hm. lia.
Qed.

Lemma max_repeat_fails : forall s taken pos,
  (forall a b, s = a ++ b -> forallb (accepts k) a = true ->
               rest (pos + length a) b = None) ->
  max_repeat k min rest taken pos s = None.
Proof.
  induction s as [|c s IH]; intros taken pos H.
  - simpl. specialize (H [] [] eq_refl eq_refl). simpl in H.
    rewrite Nat.add_0_r in H. rewrite H. now destruct (min <=? taken).
  - simpl.
    assert (H0 : rest pos (c :: s) = None).
    { specialize (H [] (c :: s) eq_refl eq_refl). simpl in H.
      now rewrite Nat.add_0_r in H. }
    rewrite H0. destruct (accepts k c) eqn:Hc; [|now destruct (min <=? taken)].
    rewrite IH; [now destruct (min <=? taken)|].
    intros a b Hs Ha. specialize (H (c :: a) b). simpl in H.
    rewrite Hc in H.
    replace (S pos + length a) with (pos + S (length a)) by lia.
    apply H; [now rewrite Hs|assumption].
Qed.

(** Where a repetition that succeeds has stopped: after a run [a] of the
    class, at the last place from which the rest matches. *)
Lemma max_repeat_some : forall s taken pos r,
  max_repeat k min rest taken pos s = Some r ->
  exists a b,
    s = a ++ b /\ forallb (accepts k) a = true /\
    min <= taken + length a /\
    rest (pos + length a) b = Some r /\
    (forall a2 b2, b = a2 ++ b2 -> a2 <> [] ->
                   forallb (accepts k) a2 = true ->
                   rest (pos + length a + length a2) b2 = None).
Proof.
  induction s as [|c s IH]; intros taken pos r H.
  - simpl in H. destruct (min <=? taken) eqn:Hm; [|discriminate].
    apply Nat.leb_le in Hm.
    exists [], []. simpl. rewrite !Nat.add_0_r.
    repeat split; auto; try lia.
    intros a2 b2 Hs. destruct a2; [congruence|discriminate].
  - simpl in H.
    assert (Stop : (if min <=? taken then rest pos (c :: s) else None) = Some r ->
                   (accepts k c = true ->
                    max_repeat k min rest (S taken) (S pos) s = None) ->
                   exists a b,
                     c :: s = a ++ b /\ forallb (accepts k) a = true /\
                     min <= taken + length a /\
                     rest (pos + length a) b = Some r /\
                     (forall a2 b2, b = a2 ++ b2 -> a2 <> [] ->
                        forallb (accepts k) a2 = true ->
                        rest (pos + length a + length a2) b2 = None)).
    { intros Hstop Hrec.
      destruct (min <=? taken) eqn:Hm; [|discriminate].
      apply Nat.leb_le in Hm.
      exists [], (c :: s). simpl. rewrite !Nat.add_0_r.
      repeat split; auto; try lia.
      intros a2 b2 Hs Hne Ha2. destruct a2 as [|c2 a2]; [congruence|].
      injection Hs as <- Hs. simpl in Ha2. apply andb_true_iff in Ha2.
      destruct Ha2 as [Hc Ha2]. simpl.
      replace (pos + S (length a2)) with (S pos + length a2) by lia.
      eapply max_repeat_none; [apply Hrec; assumption|exact Hs|assumption|lia]. }
    destruct (accepts k c) eqn:Hc; [|apply Stop; [assumption|discriminate]].
    destruct (max_repeat k min rest (S taken) (S pos) s) as [r'|] eqn:E;
      [|apply Stop; auto].
    injection H as ->.
    apply IH in E. destruct E as (a & b & Hs & Ha & Hm & Hr & Hmax).
    exists (c :: a), b. simpl. rewrite Hc, Ha.
    replace (pos + S (length a)) with (S pos + length a) by lia.
    repeat split; auto; [now rewrite Hs|lia].
Qed.

(** And the converse. *)
Lemma max_repeat_greedy : forall a b taken pos r,
  forallb (accepts k) a = true ->
  min <= taken + length a ->
  rest (pos + length a) b = Some r ->
  (forall a2 b2, b = a2 ++ b2 -> a2 <> [] ->
                 forallb (accepts k) a2 = true ->
                 rest (pos + length a + length a2) b2 = None) ->
  max_repeat k min rest taken pos (a ++ b) = Some r.
Proof.
  induction a as [|c a IH]; intros b taken pos r Ha Hm Hr Hmax.
  - simpl in *. rewrite Nat.add_0_r in *. apply Nat.leb_le in Hm.
    destruct b as [|c b]; simpl; rewrite Hm; [assumption|].
    destruct (accepts k c) eqn:Hc; [|assumption].
    rewrite max_repeat_fails; [assumption|].
    intros a2 b2 Hs Ha2. specialize (Hmax (c :: a2) b2). simpl in Hmax.
    rewrite Hc in Hmax.
    replace (S pos + length a2) with (pos + S (length a2)) by lia.
    apply Hmax; [now rewrite Hs|discriminate|assumption].
  - simpl in Ha. apply andb_true_iff in Ha. destruct Ha as [Hc Ha].
    simpl. rewrite Hc. erewrite IH; [reflexivity|assumption|simpl in Hm; lia| |].
    + simpl in Hr.
      now replace (S pos + length a) with (pos + S (length a)) by lia.
    + intros a2 b2 H1 H2 H3. specialize (Hmax a2 b2 H1 H2 H3).
      simpl in Hmax.
      now replace (S pos + length a) with (pos + S (length a)) by lia.
Qed.

End Greedy.

(* ================================================================== *)
(** ** What the patterns match *)

Section Shapes.

Import Re.

Lemma takewhile_forallb p s : forallb p (takewhile p s) = true.
Proof.
  induction s as [|c s IH]; simpl; [reflexivity|].
  destruct (p c) eqn:E; simpl; [now rewrite E|reflexivity].
Qed.

(** A run of the class followed by a character outside it. *)
Lemma takewhile_stop p a c r :
  forallb p a = true -> p c = false ->
  takewhile p (a ++ c :: r) = a /\ dropwhile p (a ++ c :: r) = c :: r.
Proof.
  intros Ha Hc. induction a as [|d a IH]; simpl.
  - now rewrite Hc.
  - simpl in Ha. apply andb_true_iff in Ha. destruct Ha as [Hd Ha].
    rewrite Hd. destruct (IH Ha) as [-> ->]. auto.
Qed.

Lemma slice_mid (x a y : str) :
  slice (length x) (length x + length a) (x ++ a ++ y) = a.
Proof.
  unfold slice. replace (length x + length a - length x) with (length a) by lia.
  induction x as [|c x IH]; simpl; [|exact IH].
  induction a as [|d a IHa]; simpl; [reflexivity|now rewrite IHa].
Qed.

Lemma run_keyword kw ops gs ge : forall pos s,
  run (keyword kw ++ ops) gs ge pos (kw ++ s) = run ops gs ge (pos + length kw) s.
Proof.
  induction kw as [|c kw IH]; intros pos s; simpl.
  - now rewrite Nat.add_0_r.
  - unfold char_eqb. rewrite N.eqb_refl, IH. f_equal. lia.
Qed.

Lemma run_keyword_inv kw ops gs ge : forall pos s r,
  run (keyword kw ++ ops) gs ge pos s = Some r ->
  exists s', s = kw ++ s' /\ run ops gs ge (pos + length kw) s' = Some r.
Proof.
  induction kw as [|c kw IH]; intros pos s r H; simpl in *.
  - exists s. now rewrite Nat.add_0_r.
  - destruct s as [|d s]; [discriminate|].
    destruct (char_eqb d c) eqn:E; [|discriminate].
    apply N.eqb_eq in E. subst d.
    apply IH in H. destruct H as [s' [-> H]].
    exists s'. split; [reflexivity|].
    now replace (pos + S (length kw)) with (S pos + length kw) by lia.
Qed.

Lemma quote_not_space : is_space quote = false.
Proof. reflexivity. Qed.

Lemma space_not_quote c : is_space c = true -> char_eqb c quote = false.
Proof. intros H. apply (space_not_letter c quote H quote_not_space). Qed.

(** What a match of a declaration pattern tells about the line. *)
Lemma run_quoted_inv marks gs ge pos s r :
  run (quoted marks) gs ge pos s = Some r ->
  exists sp p tail,
    s = sp ++ quote :: p ++ quote :: tail /\
    sp <> [] /\ forallb is_space sp = true /\
    forallb (accepts Any) p = true /\
    last_quote tail /\
    m_end r = pos + length sp + 1 + length p + 1 /\
    (marks = true ->
     g_start r = pos + length sp + 1 /\
     g_end r = pos + length sp + 1 + length p).
Proof.
  intros H. unfold quoted in H. cbn [app run] in H.
  rewrite max_repeat_longest in H.
  2:{ intros c q s0 Hc. cbn [accepts] in *. now rewrite space_not_quote. }
  change (accepts Space) with is_space in H.
  set (sp := takewhile is_space s) in *.
  destruct (1 <=? 0 + length sp) eqn:Hlen; [|discriminate].
  apply Nat.leb_le in Hlen.
  destruct (dropwhile is_space s) as [|c s1] eqn:Hd; [discriminate|].
  cbn [accepts] in H. destruct (char_eqb c quote) eqn:Hc; [|discriminate].
  apply N.eqb_eq in Hc. subst c.
  assert (Hs : s = sp ++ quote :: s1).
  { rewrite <- Hd. symmetry. apply takewhile_dropwhile. }
  assert (Hne : sp <> []).
  { intros E. rewrite E in Hlen. simpl in Hlen. lia. }
  pose proof (takewhile_forallb is_space s) as Hsp. fold sp in Hsp.
  clearbody sp. clear Hd Hlen. subst s.
  destruct marks; cbn [app run] in H; apply max_repeat_some in H;
    destruct H as (p & b & -> & Hp & _ & Hr & Hmax);
    cbn [run] in Hr, Hmax;
    (destruct b as [|c tail]; [discriminate|]);
    cbn [accepts] in Hr;
    (destruct (char_eqb c quote) eqn:Hc; [|discriminate]);
    apply N.eqb_eq in Hc; subst c; injection Hr as <-;
    exists sp, p, tail; cbn [m_end g_start g_end];
    (repeat split; auto; try lia; try discriminate);
    intros a2 b2 Hsplit Ha2 Hacc;
    specialize (Hmax a2 (quote :: b2) Hsplit Ha2 Hacc);
    cbn [accepts] in Hmax; unfold char_eqb in Hmax;
    rewrite N.eqb_refl in Hmax; discriminate.
Qed.

(** And the converse, for a payload that the dot accepts and a rest of
    the line without a quote. *)
Lemma run_quoted marks gs ge pos sp p tail :
  sp <> [] -> forallb is_space sp = true ->
  forallb (accepts Any) p = true ->
  ~ In quote tail ->
  run (quoted marks) gs ge pos (sp ++ quote :: p ++ quote :: tail)
  = Some (Found (pos + length sp + 1 + length p + 1)
                (if marks then pos + length sp + 1 else gs)
                (if marks then pos + length sp + 1 + length p else ge)).
Proof.
  intros Hne Hsp Hp Hq. unfold quoted. cbn [app run].
  rewrite max_repeat_longest.
  2:{ intros c q s0 Hc. cbn [accepts] in *. now rewrite space_not_quote. }
  change (accepts Space) with is_space.
  destruct (takewhile_stop is_space sp quote (p ++ quote :: tail) Hsp
              quote_not_space) as [-> ->].
  assert (Hlen : (1 <=? 0 + length sp) = true).
  { apply Nat.leb_le. destruct sp; [congruence|simpl; lia]. }
  rewrite Hlen. cbn [accepts]. unfold char_eqb at 1. rewrite N.eqb_refl.
  assert (Hfail : forall a2 b2,
             quote :: tail = a2 ++ b2 -> a2 <> [] ->
             match b2 with
             | [] => True
             | c :: _ => accepts (Literal quote) c = false
             end).
  { intros a2 b2 Hsplit Ha2.
    destruct a2 as [|c a2]; [congruence|]. injection Hsplit as _ ->.
    destruct b2 as [|d b2]; [exact I|]. cbn [accepts].
    destruct (char_eqb d quote) eqn:E; [|reflexivity].
    apply N.eqb_eq in E. subst d. exfalso. apply Hq, in_or_app.
    right. now left. }
  destruct marks; cbn [app run];
    (erewrite max_repeat_greedy; [reflexivity|assumption|lia| |]);
    [ | intros a2 b2 Hsplit Ha2 _; specialize (Hfail a2 b2 Hsplit Ha2)
      | | intros a2 b2 Hsplit Ha2 _; specialize (Hfail a2 b2 Hsplit Ha2) ];
    try (destruct b2; [reflexivity|now rewrite Hfail]);
    cbn [accepts]; unfold char_eqb; rewrite N.eqb_refl;
    f_equal; f_equal; lia.
Qed.

Lemma old_pattern_eq : old_pattern = declaration (lit "old").
Proof. reflexivity. Qed.

Lemma new_pattern_eq : new_pattern = declaration (lit "new").
Proof. reflexivity. Qed.

Lemma sub_pattern_eq : sub_pattern = keyword (lit "new") ++ quoted false.
Proof. reflexivity. Qed.

Lemma keyword_refuses_space k1 kw ops gs ge pos c s :
  is_space k1 = false -> is_space c = true ->
  run (keyword (k1 :: kw) ++ ops) gs ge pos (c :: s) = None.
Proof.
  intros Hk Hc. cbn [keyword List.map app run accepts].
  now rewrite (space_not_letter c k1 Hc Hk).
Qed.

Lemma slice_payload (ws kw sp p tail : str) :
  slice (0 + length ws + length kw + length sp + 1)
        (0 + length ws + length kw + length sp + 1 + length p)
        (ws ++ kw ++ sp ++ quote :: p ++ quote :: tail) = p.
Proof.
  pose proof (slice_mid (ws ++ kw ++ sp ++ [quote]) p (quote :: tail)) as H.
  rewrite !length_app in H. simpl length in H.
  rewrite <- !app_assoc in H. simpl app in H.
  replace (0 + length ws + length kw + length sp + 1)
    with (length ws + (length kw + (length sp + 1))) by lia.
  exact H.
Qed.

Lemma declaration_inv k1 kw line p :
  is_space k1 = false ->
  match_group1 (declaration (k1 :: kw)) line = Some p ->
  exists ws sp tail,
    line = ws ++ (k1 :: kw) ++ sp ++ quote :: p ++ quote :: tail /\
    forallb is_space ws = true /\
    sp <> [] /\ forallb is_space sp = true /\
    forallb (accepts Any) p = true /\
    last_quote tail.
Proof.
  intros Hk. unfold match_group1, declaration.
  destruct (run _ 0 0 0 line) as [r|] eqn:H; [|discriminate].
  intros Hp. injection Hp as Hp.
  cbn [run Nat.eqb] in H. rewrite max_repeat_longest in H.
  2:{ intros c q s Hc. now apply keyword_refuses_space. }
  cbn [Nat.leb] in H. change (accepts Space) with is_space in H.
  pose proof (takewhile_dropwhile is_space line) as Hline.
  pose proof (takewhile_forallb is_space line) as Hws.
  set (ws := takewhile is_space line) in *. clearbody ws.
  apply run_keyword_inv in H. destruct H as (s1 & Hs1 & H).
  apply run_quoted_inv in H.
  destruct H as (sp & q & tail & -> & Hne & Hsp & Hq & Hlast & _ & Hg).
  destruct (Hg eq_refl) as [Hgs Hge]. rewrite Hs1 in Hline. subst line.
  rewrite Hgs, Hge in Hp.
  assert (q = p).
  { rewrite <- Hp. symmetry. apply (slice_payload ws (k1 :: kw) sp q tail). }
  subst q. exists ws, sp, tail. repeat split; auto.
Qed.

Lemma declaration_match k1 kw ws sp p tail :
  is_space k1 = false ->
  forallb is_space ws = true ->
  sp <> [] -> forallb is_space sp = true ->
  forallb (accepts Any) p = true ->
  ~ In quote tail ->
  match_group1 (declaration (k1 :: kw))
               (ws ++ (k1 :: kw) ++ sp ++ quote :: p ++ quote :: tail)
  = Some p.
Proof.
  intros Hk Hws Hne Hsp Hp Hq. unfold match_group1, declaration.
  cbn [run Nat.eqb]. rewrite max_repeat_longest.
  2:{ intros c q s Hc. now apply keyword_refuses_space. }
  cbn [Nat.leb]. change (accepts Space) with is_space.
  change ((k1 :: kw) ++ sp ++ quote :: p ++ quote :: tail)
    with (k1 :: kw ++ sp ++ quote :: p ++ quote :: tail).
  destruct (takewhile_stop is_space ws k1
              (kw ++ sp ++ quote :: p ++ quote :: tail) Hws Hk) as [-> ->].
  change (k1 :: kw ++ sp ++ quote :: p ++ quote :: tail)
    with ((k1 :: kw) ++ sp ++ quote :: p ++ quote :: tail).
  rewrite run_keyword, run_quoted by assumption.
  cbn [g_start g_end]. f_equal.
  apply (slice_payload ws (k1 :: kw) sp p tail).
Qed.

(** *** The substitution of line 98 *)

Lemma run_sub_needs_quote kw gs ge pos s :
  ~ In quote s -> run (keyword kw ++ quoted false) gs ge pos s = None.
Proof.
  intros Hq. destruct (run _ gs ge pos s) as [r|] eqn:H; [|reflexivity].
  apply run_keyword_inv in H. destruct H as (s1 & -> & H).
  apply run_quoted_inv in H. destruct H as (sp & p & tail & -> & _).
  exfalso. apply Hq. apply in_or_app. right. apply in_or_app. right. now left.
Qed.

Lemma sub_scan_no_quote kw t : forall s pos,
  ~ In quote s -> sub_scan (keyword kw ++ quoted false) t 0 pos s = s.
Proof.
  induction s as [|c s IH]; intros pos Hq; [reflexivity|].
  cbn [sub_scan]. rewrite run_sub_needs_quote by assumption.
  rewrite IH; [reflexivity|]. intros H. apply Hq. now right.
Qed.

Lemma sub_scan_spaces k1 kw t ws b : forall pos,
  is_space k1 = false -> forallb is_space ws = true ->
  sub_scan (keyword (k1 :: kw) ++ quoted false) t 0 pos (ws ++ b)
  = ws ++ sub_scan (keyword (k1 :: kw) ++ quoted false) t 0 (pos + length ws) b.
Proof.
  induction ws as [|c ws IH]; intros pos Hk Hws.
  - simpl. now rewrite Nat.add_0_r.
  - simpl in Hws. apply andb_true_iff in Hws. destruct Hws as [Hc Hws].
    change ((c :: ws) ++ b) with (c :: ws ++ b). cbn [sub_scan].
    rewrite keyword_refuses_space by assumption.
    rewrite IH by assumption. simpl. do 3 f_equal. lia.
Qed.

Lemma sub_scan_skip P t a b : forall n pos,
  length a = n ->
  sub_scan P t n pos (a ++ b) = sub_scan P t 0 (pos + n) b.
Proof.
  induction a as [|c a IH]; intros n pos Hn; simpl in Hn; subst n.
  - simpl. now rewrite Nat.add_0_r.
  - change ((c :: a) ++ b) with (c :: a ++ b). cbn [sub_scan length].
    rewrite IH by reflexivity. f_equal. lia.
Qed.

Lemma firstn_length_app (a b : str) : firstn (length a) (a ++ b) = a.
Proof. induction a as [|c a IH]; simpl; [reflexivity|now rewrite IH]. Qed.

(** On a target declaration with no further quote, [re.sub] replaces the
    keyword, the white space after it and the quoted payload, and keeps
    what is before and after. *)
Lemma sub_scan_declaration k1 kw t ws sp p tail :
  is_space k1 = false ->
  forallb is_space ws = true ->
  sp <> [] -> forallb is_space sp = true ->
  forallb (accepts Any) p = true ->
  ~ In quote tail ->
  sub_scan (keyword (k1 :: kw) ++ quoted false) t 0 0
           (ws ++ (k1 :: kw) ++ sp ++ quote :: p ++ quote :: tail)
  = ws ++ expand t ((k1 :: kw) ++ sp ++ quote :: p ++ [quote]) ++ tail.
Proof.
  intros Hk Hws Hne Hsp Hp Hq.
  rewrite sub_scan_spaces by assumption. f_equal.
  set (pos := 0 + length ws).
  pose proof (run_keyword (k1 :: kw) (quoted false) 0 0 pos
                (sp ++ quote :: p ++ quote :: tail)) as Hrun.
  rewrite run_quoted in Hrun by assumption.
  set (M := (k1 :: kw) ++ sp ++ quote :: p ++ [quote]).
  assert (HM : (k1 :: kw) ++ sp ++ quote :: p ++ quote :: tail = M ++ tail).
  { unfold M. rewrite <- !app_assoc. simpl. now rewrite <- !app_assoc. }
  assert (Hlen : pos + length (k1 :: kw) + length sp + 1 + length p + 1
                 = pos + length M).
  { unfold M. rewrite !length_app. simpl. rewrite length_app. simpl. lia. }
  rewrite Hlen in Hrun. rewrite HM in *.
  assert (HMc : exists M', M = k1 :: M') by (unfold M; simpl; eauto).
  destruct HMc as [M' HM']. rewrite HM' in *.
  change ((k1 :: M') ++ tail) with (k1 :: M' ++ tail) in *.
  cbn [sub_scan]. rewrite Hrun. cbn [m_end].
  replace (pos + length (k1 :: M') - pos) with (length (k1 :: M')) by lia.
  change (k1 :: M' ++ tail) with ((k1 :: M') ++ tail).
  rewrite firstn_length_app. f_equal.
  simpl length. replace (S (length M') - 1) with (length M') by lia.
  rewrite sub_scan_skip by reflexivity.
  now apply sub_scan_no_quote.
Qed.

(** A replacement string without a backslash stands for itself. *)
Lemma parse_template_plain s :
  ~ In backslash s -> parse_template Normal s = Some (List.map TChar s).
Proof.
  induction s as [|c s IH]; intros H; [reflexivity|].
  simpl. destruct (char_eqb c backslash) eqn:E.
  - apply N.eqb_eq in E. subst c. exfalso. apply H. now left.
  - simpl. rewrite IH; [reflexivity|]. intros Hin. apply H. now right.
Qed.

Lemma expand_plain s whole : expand (List.map TChar s) whole = s.
Proof. induction s as [|c s IH]; simpl; [reflexivity|now rewrite IH]. Qed.

End Shapes.

(* ================================================================== *)
(** ** Properties of the line scan *)

(** No line is both a source and a target declaration. *)
Lemma old_new_exclusive line t :
  old_match line = Some t -> new_match line = None.
Proof.
  unfold old_match, new_match, Re.match_group1. intros Ho.
  destruct (Re.run old_pattern 0 0 0 line) as [ro|] eqn:Eo; [|discriminate].
  destruct (Re.run new_pattern 0 0 0 line) as [rn|] eqn:En; [|reflexivity].
  apply run_decl_head in Eo; [|reflexivity].
  apply run_decl_head in En; [|reflexivity].
  destruct Eo as [x Hx], En as [y Hy]. rewrite Hx in Hy. discriminate.
Qed.

Section ScanFacts.

Variable service : list event -> request -> reply.
Variables lang form : str.

Abbreviation loop_body := (loop_body service lang form).
Abbreviation for_lines := (for_lines service lang form).
Abbreviation process_lines := (process_lines service lang form).
Abbreviation translate_text := (translate_text service).

(** An iteration that calls nothing: the line is appended as it is and
    the world is left alone. *)
Lemma loop_body_echo st line w :
  old_match line <> None \/ new_match line = None \/ buffer_old_text st = None
  \/ (exists p, new_match line = Some p /\ strip_is_empty p = false) ->
  loop_body st line w =
  (Ok (Scan (pending_step (buffer_old_text st) line) (output_lines st ++ [line])),
   w).
Proof.
  intros H. unfold Translate.loop_body, pending_step.
  destruct (old_match line) as [t|] eqn:Eo; [reflexivity|].
  destruct (new_match line) as [p|] eqn:En; [|reflexivity].
  destruct (buffer_old_text st) as [b|] eqn:Eb; [|reflexivity].
  destruct H as [H|[H|[H|[q [Hq Hs]]]]]; try congruence.
  injection Hq as <-. now rewrite Hs.
Qed.

(** Any iteration that returns has appended exactly one line and has
    moved the buffer as [pending_step] says. *)
Lemma loop_body_ok st line w st' w' :
  loop_body st line w = (Ok st', w') ->
  buffer_old_text st' = pending_step (buffer_old_text st) line /\
  exists o, output_lines st' = output_lines st ++ [o] /\ emitted_for line o.
Proof.
  unfold Translate.loop_body, pending_step, emitted_for.
  destruct (old_match line) as [t|] eqn:Eo.
  { intros H; injection H as <- <-. simpl. eauto. }
  destruct (new_match line) as [p|] eqn:En.
  2:{ intros H; injection H as <- <-. simpl. eauto. }
  destruct (buffer_old_text st) as [b|] eqn:Eb.
  2:{ intros H; injection H as <- <-. simpl. eauto. }
  destruct (strip_is_empty p) eqn:Es.
  2:{ intros H; injection H as <- <-. simpl. eauto. }
  unfold bind at 1.
  destruct (translate_text b lang form w) as [[tr|e] w1]; [|discriminate].
  destruct (Re.sub sub_pattern (new_line_template tr) line) as [u|] eqn:Eu;
    [|discriminate].
  intros H; injection H as <- <-. simpl. split; [reflexivity|].
  exists u. split; [reflexivity|]. right. split; [reflexivity|].
  exists p, tr. auto.
Qed.

Lemma for_lines_app st a b w :
  for_lines st (a ++ b) w =
  match for_lines st a w with
  | (Ok st', w') => for_lines st' b w'
  | (Raised e, w') => (Raised e, w')
  end.
Proof.
  revert st w; induction a as [|l a IH]; intros st w; simpl; [reflexivity|].
  unfold bind. destruct (loop_body st l w) as [[st1|e] w1]; [apply IH|reflexivity].
Qed.

Lemma for_lines_ok lines : forall st w st' w',
  for_lines st lines w = (Ok st', w') ->
  buffer_old_text st' = pending_after (buffer_old_text st) lines /\
  exists outs, output_lines st' = output_lines st ++ outs /\
               Forall2 emitted_for lines outs.
Proof.
  induction lines as [|l lines IH]; intros st w st' w' H; simpl in H.
  - injection H as <- <-. split; [reflexivity|].
    exists []. now rewrite app_nil_r.
  - unfold bind in H.
    destruct (loop_body st l w) as [[st1|e] w1] eqn:E1; [|discriminate].
    apply loop_body_ok in E1. destruct E1 as [Hb [o [Ho Hr]]].
    apply IH in H. destruct H as [Hb' [outs [Houts HF]]].
    split; [simpl; now rewrite <- Hb|].
    exists (o :: outs). split; [|now constructor].
    rewrite Houts, Ho, <- app_assoc. reflexivity.
Qed.

(** Lines that are echoed one after the other. *)
Lemma for_lines_echo lines : forall st w,
  (buffer_old_text st = None /\ Forall (fun l => old_match l = None) lines)
  \/ Forall (fun l => new_match l = None) lines ->
  for_lines st lines w =
  (Ok (Scan (pending_after (buffer_old_text st) lines) (output_lines st ++ lines)),
   w).
Proof.
  induction lines as [|l lines IH]; intros st w H; simpl.
  - rewrite app_nil_r. now destruct st.
  - unfold bind. rewrite loop_body_echo.
    + rewrite IH; simpl; [now rewrite <- app_assoc|].
      destruct H as [[Hb H]|H].
      * left. inversion H; subst. split; [|assumption].
        unfold pending_step. rewrite H2, Hb. now destruct (new_match l).
      * right. now inversion H.
    + destruct H as [[Hb H]|H]; [auto|].
      inversion H; auto.
Qed.

Lemma Forall2_at {A B} (R : A -> B -> Prop) l1 l2 :
  Forall2 R l1 l2 ->
  forall i a b, nth_error l1 i = Some a -> nth_error l2 i = Some b -> R a b.
Proof.
  induction 1 as [|x y l1 l2 Hxy HF IH]; intros [|i] a b Ha Hb;
    simpl in *; try discriminate.
  - now injection Ha as <-; injection Hb as <-.
  - eauto.
Qed.

(** A completed run, cut at one of its lines. *)
Lemma process_lines_split pre line post w out w' :
  process_lines (pre ++ line :: post) w = (Ok out, w') ->
  exists st w1 st2 w2 o rest,
    for_lines init pre w = (Ok st, w1) /\
    loop_body st line w1 = (Ok st2, w2) /\
    length (output_lines st) = length pre /\
    output_lines st2 = output_lines st ++ [o] /\
    emitted_for line o /\
    out = output_lines st ++ o :: rest /\
    Forall2 emitted_for post rest.
Proof.
  unfold Translate.process_lines, bind, ret.
  rewrite for_lines_app.
  destruct (for_lines init pre w) as [[st|e] w1] eqn:E1; [|discriminate].
  simpl. unfold bind.
  destruct (loop_body st line w1) as [[st2|e] w2] eqn:E2; [|discriminate].
  destruct (for_lines st2 post w2) as [[st3|e] w3] eqn:E3; [|discriminate].
  intros H; injection H as <- <-.
  apply for_lines_ok in E1. destruct E1 as [_ [o1 [Ho1 HF1]]].
  pose proof (loop_body_ok _ _ _ _ _ E2) as [_ [o [Ho Hr]]].
  apply for_lines_ok in E3. destruct E3 as [_ [o3 [Ho3 HF3]]].
  exists st, w1, st2, w2, o, o3. repeat split; auto.
  - rewrite Ho1. simpl. symmetry. eapply Forall2_length; eassumption.
  - rewrite Ho3, Ho, <- app_assoc. reflexivity.
Qed.

Lemma process_lines_ok lines w out w' :
  process_lines lines w = (Ok out, w') -> Forall2 emitted_for lines out.
Proof.
  unfold Translate.process_lines, bind, ret.
  destruct (Translate.for_lines _ _ _ _ lines w) as [[st|e] w1] eqn:E;
    [|discriminate].
  intros H; injection H as <- <-.
  apply for_lines_ok in E. destruct E as [_ [outs [Ho HF]]].
  now rewrite Ho.
Qed.

End ScanFacts.

(* ================================================================== *)
(** ** Runs without a credential *)

Section NoKey.

Variable service : list event -> request -> reply.

Lemma translate_text_no_key txt lang form w :
  key_absent (DEEPL_API_KEY w) = true ->
  translate_text service txt lang form w =
  (Raised ValueError,
   World (DEEPL_API_KEY w) (files w) (trace w ++ [CallTranslate txt lang form])).
Proof.
  intros H. unfold translate_text, bind, emit, getenv_key. simpl.
  now rewrite H.
Qed.

Lemma no_request_refl w : no_request_since w w.
Proof. repeat split. exists []. now rewrite app_nil_r. Qed.

Lemma no_request_trans w1 w2 w3 :
  no_request_since w1 w2 -> no_request_since w2 w3 -> no_request_since w1 w3.
Proof.
  intros (K1 & F1 & e1 & T1 & P1) (K2 & F2 & e2 & T2 & P2).
  repeat split; try congruence.
  exists (e1 ++ e2). rewrite T2, T1, <- app_assoc, filter_app, P1, P2. auto.
Qed.

Lemma loop_body_no_key lang form st line w r w' :
  key_absent (DEEPL_API_KEY w) = true ->
  loop_body service lang form st line w = (r, w') ->
  no_request_since w w'.
Proof.
  intros Hk H.
  destruct (old_match line) as [t|] eqn:Eo.
  { rewrite loop_body_echo in H by (left; congruence).
    injection H as _ <-. apply no_request_refl. }
  destruct (new_match line) as [p|] eqn:En.
  2:{ rewrite loop_body_echo in H by auto.
      injection H as _ <-. apply no_request_refl. }
  destruct (buffer_old_text st) as [b|] eqn:Eb.
  2:{ rewrite loop_body_echo in H by auto.
      injection H as _ <-. apply no_request_refl. }
  destruct (strip_is_empty p) eqn:Es.
  2:{ rewrite loop_body_echo in H by (right; right; right; eauto).
      injection H as _ <-. apply no_request_refl. }
  unfold loop_body in H. rewrite Eo, En, Eb, Es in H.
  unfold bind at 1 in H. rewrite translate_text_no_key in H by assumption.
  injection H as _ <-. repeat split. simpl. eauto.
Qed.

Lemma for_lines_no_key lang form lines : forall st w r w',
  key_absent (DEEPL_API_KEY w) = true ->
  for_lines service lang form st lines w = (r, w') ->
  no_request_since w w'.
Proof.
  induction lines as [|l lines IH]; intros st w r w' Hk H; simpl in H.
  - injection H as _ <-. apply no_request_refl.
  - unfold bind in H.
    destruct (loop_body service lang form st l w) as [[st1|e] w1] eqn:E1.
    + pose proof (loop_body_no_key _ _ _ _ _ _ _ Hk E1) as N1.
      eapply no_request_trans; [exact N1|].
      eapply IH; [|exact H]. destruct N1 as [-> _]. assumption.
    + injection H as _ <-. eapply loop_body_no_key; eassumption.
Qed.

End NoKey.

(* ================================================================== *)
(** ** Case mapping, lines and files *)

Lemma upper_lower_ascii tok :
  is_ascii tok = true -> upper (lower tok) = upper tok.
Proof.
  unfold upper, lower, is_ascii. rewrite map_map, forallb_forall.
  intros H. apply map_ext_in. intros c Hc. apply H in Hc.
  apply N.ltb_lt in Hc.
  assert (K : char_eqb c 8490%N = false) by (apply N.eqb_neq; lia).
  unfold lower_char. rewrite K. unfold upper_char, in_range.
  destruct (N.leb_spec 65 c), (N.leb_spec c 90); simpl;
    repeat first [ rewrite (proj2 (N.leb_le _ _)) by lia
                 | rewrite (proj2 (N.leb_gt _ _)) by lia ];
    simpl; try lia;
    destruct (N.leb_spec 97 c), (N.leb_spec c 122); simpl; lia.
Qed.

Lemma str_eqb_refl s : str_eqb s s = true.
Proof.
  induction s as [|c s IH]; simpl; [reflexivity|].
  unfold char_eqb. now rewrite N.eqb_refl.
Qed.

Lemma universal_newlines_plain s :
  only_LF_breaks s = true -> universal_newlines s = s.
Proof.
  induction s as [|c s IH]; simpl; [reflexivity|].
  intros H. apply andb_true_iff in H. destruct H as [Hc Hs].
  destruct (char_eqb c CR) eqn:E.
  - apply N.eqb_eq in E. subst c. discriminate.
  - now rewrite IH.
Qed.

Lemma splitlines_from_nonempty s cur :
  s <> [] -> splitlines_from cur s <> [].
Proof.
  revert cur; induction s as [|c s IH]; intros cur H; [congruence|].
  simpl. destruct (is_linebreak c); [discriminate|].
  destruct s as [|d s]; [|apply IH; discriminate].
  simpl. now destruct cur.
Qed.

Lemma join_lines_cons l ls :
  ls <> [] -> join_lines (l :: ls) = l ++ LF :: join_lines ls.
Proof. destruct ls; [congruence|reflexivity]. Qed.

Lemma join_splitlines_from s : forall cur,
  only_LF_breaks s = true ->
  no_final_LF s = true ->
  join_lines (splitlines_from cur s) = cur ++ s.
Proof.
  induction s as [|c s IH]; intros cur Hb Hf.
  - simpl. destruct cur; [reflexivity|]. simpl. now rewrite app_nil_r.
  - simpl in Hb. apply andb_true_iff in Hb. destruct Hb as [Hc Hs].
    assert (Hf' : s <> [] -> no_final_LF s = true).
    { intros Hne. unfold no_final_LF in *. destruct s; [congruence|exact Hf]. }
    simpl. destruct (is_linebreak c) eqn:El.
    + simpl in Hc. apply N.eqb_eq in Hc. subst c.
      change (char_eqb LF CR) with false. cbv iota.
      assert (Hne : s <> []).
      { intros ->. discriminate. }
      rewrite join_lines_cons by (now apply splitlines_from_nonempty).
      rewrite IH by auto. reflexivity.
    + destruct s as [|d s'].
      * simpl. destruct (cur ++ [c]) eqn:E; [now destruct cur|].
        reflexivity.
      * rewrite IH by (auto; apply Hf'; discriminate).
        now rewrite <- app_assoc.
Qed.

Lemma splitlines_from_no_linebreak s : forall cur l,
  forallb (fun c => negb (is_linebreak c)) cur = true ->
  In l (splitlines_from cur s) ->
  forallb (fun c => negb (is_linebreak c)) l = true.
Proof.
  induction s as [|c s IH]; intros cur l Hcur Hl.
  - simpl in Hl. destruct cur; [contradiction|].
    destruct Hl as [<-|[]]. assumption.
  - simpl in Hl. destruct (is_linebreak c) eqn:Ec.
    + destruct Hl as [<-|Hl]; [assumption|].
      apply (IH [] l eq_refl).
      destruct (char_eqb c CR); [|assumption].
      destruct s as [|d s']; [assumption|].
      destruct (char_eqb d LF) eqn:Ed; [|assumption].
      apply N.eqb_eq in Ed. subst d. simpl. now right.
    + apply (IH (cur ++ [c]) l); [|assumption].
      rewrite forallb_app, Hcur. simpl. now rewrite Ec.
Qed.

(** The lines of a file hold no line feed. *)
Lemma splitlines_no_LF s l : In l (splitlines s) -> ~ In LF l.
Proof.
  intros Hl Hin.
  pose proof (splitlines_from_no_linebreak s [] l eq_refl Hl) as H.
  rewrite forallb_forall in H. specialize (H LF Hin). discriminate.
Qed.

(* ================================================================== *)
(** ** The pair of a source line and an empty target line *)

Section Pair.

Variable service : list event -> request -> reply.
Variables lang form : str.

(** What [translate_text] does when the credential is there. *)
Lemma translate_text_with_key txt k w :
  DEEPL_API_KEY w = Some k -> k <> [] ->
  translate_text service txt lang form w =
  let called := trace w ++ [CallTranslate txt lang form] in
  let params := params_of k txt lang form in
  let posted := World (Some k) (files w) (called ++ [Post params]) in
  match service called params with
  | Translations first => (Ok first, posted)
  | BadPayload => (Raised LookupError, posted)
  | RequestException =>
      (Ok txt, World (Some k) (files w) (called ++ [Post params; PrintError]))
  end.
Proof.
  intros Hk Hne. unfold translate_text, bind, emit, getenv_key, requests_post.
  simpl. rewrite Hk. destruct k as [|c k]; [congruence|]. simpl.
  destruct (service _ _); try reflexivity.
  unfold ret. simpl. now rewrite <- app_assoc.
Qed.

(** A request that fails hands the text back: no exception. *)
Lemma translate_text_transport_failure txt k w :
  DEEPL_API_KEY w = Some k -> k <> [] ->
  service (trace w ++ [CallTranslate txt lang form])
          (params_of k txt lang form) = RequestException ->
  fst (translate_text service txt lang form w) = Ok txt.
Proof.
  intros Hk Hne Hs. rewrite (translate_text_with_key txt k w Hk Hne).
  cbv zeta. now rewrite Hs.
Qed.

(** A line of the shape of a target declaration is rewritten as
    follows when it is reached with a pending source text and the
    translation has no backslash. *)
Lemma fill_shaped st ws sp p tail buffered translation w w1 :
  forallb is_space ws = true ->
  sp <> [] -> forallb is_space sp = true ->
  strip_is_empty p = true ->
  ~ In LF p ->
  ~ In quote tail ->
  buffer_old_text st = Some buffered ->
  translate_text service buffered lang form w = (Ok translation, w1) ->
  ~ In backslash translation ->
  loop_body service lang form st
            (ws ++ lit "new" ++ sp ++ quote :: p ++ quote :: tail) w =
  (Ok (Scan None
         (output_lines st
          ++ [ws ++ lit "new " ++ quote :: translation ++ quote :: tail])),
   w1).
Proof.
  intros Hws Hne Hsp Hs Hlf Hq Hb Htr Hbs.
  set (line := ws ++ lit "new" ++ sp ++ quote :: p ++ quote :: tail).
  assert (Hp : forallb (Re.accepts Re.Any) p = true).
  { apply forallb_forall. intros x Hx. cbn [Re.accepts].
    destruct (char_eqb x LF) eqn:E; [|reflexivity].
    apply N.eqb_eq in E. subst x. contradiction. }
  assert (Hn : new_match line = Some p).
  { unfold new_match, line. rewrite new_pattern_eq.
    change (lit "new") with (110%N :: [101%N; 119%N]).
    now apply declaration_match. }
  assert (Ho : old_match line = None).
  { destruct (old_match line) as [t|] eqn:E; [|reflexivity].
    apply old_new_exclusive in E. congruence. }
  unfold loop_body. rewrite Ho, Hn, Hb, Hs. unfold bind at 1. rewrite Htr.
  unfold Re.sub. rewrite parse_template_plain.
  2:{ unfold new_line_template. intros Hin. apply in_app_or in Hin.
      destruct Hin as [Hin|[Hin|Hin]]; [| discriminate |].
      - simpl in Hin. repeat (destruct Hin as [Hin|Hin]; [discriminate|]).
        contradiction.
      - apply in_app_or in Hin. destruct Hin as [Hin|[Hin|[]]];
          [contradiction|discriminate]. }
  rewrite sub_pattern_eq. unfold line.
  change (lit "new") with (110%N :: [101%N; 119%N]).
  rewrite sub_scan_declaration by auto.
  rewrite expand_plain. unfold ret, new_line_template.
  do 4 f_equal. rewrite <- !app_assoc. f_equal.
  change ((quote :: translation ++ [quote]) ++ tail)
    with (quote :: (translation ++ [quote]) ++ tail).
  now rewrite <- app_assoc.
Qed.

(** A target declaration with a blank payload, reached with a pending
    source text: when the translation call returns a text without a
    backslash, the line is rewritten to the keyword, one space and the
    translation between quotes; what is before the keyword and after the
    closing quote stays. *)
Lemma fill_blank_target st line p buffered translation w w1 :
  new_match line = Some p ->
  strip_is_empty p = true ->
  ~ In LF line ->
  buffer_old_text st = Some buffered ->
  translate_text service buffered lang form w = (Ok translation, w1) ->
  ~ In backslash translation ->
  exists ws sp tail,
    line = ws ++ lit "new" ++ sp ++ quote :: p ++ quote :: tail /\
    forallb is_space ws = true /\ sp <> [] /\ forallb is_space sp = true /\
    ~ In quote tail /\
    loop_body service lang form st line w =
    (Ok (Scan None
           (output_lines st
            ++ [ws ++ lit "new " ++ quote :: translation ++ quote :: tail])),
     w1).
Proof.
  intros Hn Hs Hlf Hb Htr Hbs.
  pose proof Hn as Hshape. unfold new_match in Hshape.
  rewrite new_pattern_eq in Hshape.
  change (lit "new") with (110%N :: [101%N; 119%N]) in Hshape.
  apply declaration_inv in Hshape; [|reflexivity].
  change (110%N :: [101%N; 119%N]) with (lit "new") in Hshape.
  destruct Hshape as (ws & sp & tail & Hline & Hws & Hne & Hsp & Hp & Hlast).
  assert (Hin : forall x, In x (p ++ quote :: tail) -> In x line).
  { intros x Hx. rewrite Hline. apply in_or_app. right. apply in_or_app.
    right. apply in_or_app. right. now right. }
  assert (Hq : ~ In quote tail).
  { intros Hq. apply in_split in Hq. destruct Hq as (t1 & t2 & ->).
    apply (Hlast (quote :: t1) t2); [reflexivity|discriminate|].
    apply forallb_forall. intros x Hx. cbn [Re.accepts].
    destruct (char_eqb x LF) eqn:E; [|reflexivity].
    apply N.eqb_eq in E. subst x. exfalso. apply Hlf, Hin.
    apply in_or_app. right. destruct Hx as [Hx|Hx]; [discriminate|].
    right. apply in_or_app. now left. }
  exists ws, sp, tail. repeat split; auto.
  rewrite Hline. apply (fill_shaped st ws sp p tail buffered); auto.
  intros Hx. apply Hlf, Hin. apply in_or_app. now left.
Qed.

(** Declaration lines written with [decl] are what the patterns match. *)
Lemma match_decl k1 kw indent t :
  is_space k1 = false ->
  forallb is_space indent = true -> ~ In LF t ->
  Re.match_group1 (Re.declaration (k1 :: kw))
                  (indent ++ (k1 :: kw) ++ 32%N :: quote :: t ++ [quote])
  = Some t.
Proof.
  intros Hk Hi Ht.
  apply (declaration_match k1 kw indent [32%N] t [] Hk Hi);
    [discriminate|reflexivity| |intros []].
  apply forallb_forall. intros x Hx. cbn [Re.accepts].
  destruct (char_eqb x LF) eqn:E; [|reflexivity].
  apply N.eqb_eq in E. subst x. contradiction.
Qed.

Lemma old_match_decl indent t :
  forallb is_space indent = true -> ~ In LF t ->
  old_match (decl indent "old" t) = Some t.
Proof.
  intros Hi Ht. unfold old_match. rewrite old_pattern_eq.
  apply (match_decl 111%N [108%N; 100%N] indent t eq_refl Hi Ht).
Qed.

Lemma new_match_decl indent t :
  forallb is_space indent = true -> ~ In LF t ->
  new_match (decl indent "new" t) = Some t.
Proof.
  intros Hi Ht. unfold new_match. rewrite new_pattern_eq.
  apply (match_decl 110%N [101%N; 119%N] indent t eq_refl Hi Ht).
Qed.

(** The two-line file of the claims: the source text [t] and an empty
    target.  When the translation call returns a text without a
    backslash, the target line gets that text. *)
Lemma pair_filled indent t translation w w1 :
  forallb is_space indent = true -> ~ In LF t ->
  translate_text service t lang form w = (Ok translation, w1) ->
  ~ In backslash translation ->
  process_lines service lang form
                [decl indent "old" t; decl indent "new" []] w
  = (Ok [decl indent "old" t; decl indent "new" translation], w1).
Proof.
  intros Hi Ht Htr Hbs. unfold process_lines, bind, for_lines, bind.
  rewrite loop_body_echo
    by (left; rewrite old_match_decl by assumption; discriminate).
  cbn [output_lines buffer_old_text init app]. unfold pending_step.
  rewrite old_match_decl by assumption.
  pose proof (fill_shaped (Scan (Some t) [decl indent "old" t])
                indent [32%N] [] [] t translation w w1 Hi) as H.
  specialize (H ltac:(discriminate) eq_refl eq_refl ltac:(intros [])
                ltac:(intros []) eq_refl Htr Hbs).
  change (loop_body service lang form
            (Scan (@Some str t) [decl indent "old" t]) (decl indent "new" []) w
          = (Ok (Scan None [decl indent "old" t; decl indent "new" translation]),
             w1)) in H.
  now rewrite H.
Qed.

(** The same file when the request fails: the source text itself comes
    back, and is written as the payload if it has no backslash. *)
Lemma pair_passed_through indent t k w :
  forallb is_space indent = true -> ~ In LF t -> ~ In backslash t ->
  DEEPL_API_KEY w = Some k -> k <> [] ->
  service (trace w ++ [CallTranslate t lang form]) (params_of k t lang form)
  = RequestException ->
  fst (process_lines service lang form
                     [decl indent "old" t; decl indent "new" []] w)
  = Ok [decl indent "old" t; decl indent "new" t].
Proof.
  intros Hi Ht Hbs Hk Hne Hfail.
  pose proof (translate_text_with_key t k w Hk Hne) as Htr.
  cbv zeta in Htr. rewrite Hfail in Htr.
  now rewrite (pair_filled indent t t w _ Hi Ht Htr Hbs).
Qed.

End Pair.

(* ================================================================== *)
(** ** Filling an empty target line (C1, C2) *)

(** C1 at a pair whose translation has a backslash escape: the
    replacement string of line 98 is a template for [re.sub], so the two
    characters backslash and n of the translation arrive in the output as
    one line feed, and the payload written is not the translation. *)
Theorem C1_translation_with_escape :
  let t := lit "Line one\nLine two" in
  let translation := lit "Zeile eins\nZeile zwei" in
  let src := decl Demo.indent "old" t in
  let tgt := decl Demo.indent "new" [] in
  let service := Demo.answers translation in
  old_match src = Some t /\
  new_match tgt = Some [] /\
  fst (translate_text service t Demo.DE Demo.default Demo.with_key)
  = Ok translation /\
  fst (process_lines service Demo.DE Demo.default [src; tgt] Demo.with_key)
  = Ok [src;
        decl Demo.indent "new" (lit "Zeile eins" ++ LF :: lit "Zeile zwei")] /\
  decl Demo.indent "new" (lit "Zeile eins" ++ LF :: lit "Zeile zwei")
  <> decl Demo.indent "new" translation.
Proof.
  cbv zeta. repeat apply conj; try (vm_compute; reflexivity).
  vm_compute. discriminate.
Qed.

(** C2 at pairs whose source text has a backslash: the request fails and
    [translate_text] hands the source text back, but the substitution of
    line 98 reads it as a template.  With backslash n in the text the
    target line gets a line feed instead of the two characters; with
    backslash U (a Windows path) [re.sub] raises and the run stops. *)
Theorem C2_pass_through_with_backslash :
  let t := lit "Line one\nLine two" in
  let u := lit "Open C:\Users" in
  let tgt := decl Demo.indent "new" [] in
  fst (translate_text Demo.unreachable t Demo.DE Demo.default Demo.with_key)
  = Ok t /\
  fst (process_lines Demo.unreachable Demo.DE Demo.default
         [decl Demo.indent "old" t; tgt] Demo.with_key)
  = Ok [decl Demo.indent "old" t;
        decl Demo.indent "new" (lit "Line one" ++ LF :: lit "Line two")] /\
  decl Demo.indent "new" (lit "Line one" ++ LF :: lit "Line two")
  <> decl Demo.indent "new" t /\
  fst (process_lines Demo.unreachable Demo.DE Demo.default
         [decl Demo.indent "old" u; tgt] Demo.with_key)
  = Raised TemplateError.
Proof.
  cbv zeta. repeat apply conj; try (vm_compute; reflexivity).
  vm_compute. discriminate.
Qed.

(* ================================================================== *)
(** ** Target lines that already have a payload (C3) *)

(** C3, in the form that holds.  A target declaration whose payload has
    a character that is not white space is emitted as it is, whatever
    comes before it; and a line of the output differs from the input line
    at its position only if that input line is a target declaration whose
    payload is empty or all white space. *)
Theorem C3_filled_target_kept :
  forall service lang form,
    (forall pre tgt p post w out w',
        new_match tgt = Some p ->
        strip_is_empty p = false ->
        process_lines service lang form (pre ++ tgt :: post) w = (Ok out, w') ->
        nth_error out (length pre) = Some tgt) /\
    (forall lines w out w' i l o,
        process_lines service lang form lines w = (Ok out, w') ->
        nth_error lines i = Some l ->
        nth_error out i = Some o ->
        o <> l ->
        exists p, new_match l = Some p /\ strip_is_empty p = true).
Proof.
  intros service lang form. split.
  - intros pre tgt p post w out w' Hn Hs Hrun.
    apply process_lines_split in Hrun.
    destruct Hrun as (st & w1 & st2 & w2 & o & rest & _ & H2 & Hlen & Ho & _ & Hout & _).
    rewrite loop_body_echo in H2 by (right; right; right; eauto).
    injection H2 as <- <-. simpl in Ho.
    apply app_inv_head in Ho. injection Ho as <-.
    rewrite Hout, nth_error_app2, Hlen, Nat.sub_diag by lia. reflexivity.
  - intros lines w out w' i l o Hrun Hl Ho Hne.
    apply process_lines_ok in Hrun.
    destruct (Forall2_at _ _ _ Hrun _ _ _ Hl Ho) as [->|[_ [p [tr [Hp [Hs _]]]]]];
      [congruence|eauto].
Qed.

(** C3 as worded fails on a target line whose payload is one space: the
    payload is not empty, and the line is rewritten. *)
Lemma C3_blank_payload_filled :
  let src := decl Demo.indent "old" (lit "Hi") in
  let tgt := decl Demo.indent "new" (lit " ") in
  old_match src = Some (lit "Hi") /\
  new_match tgt = Some (lit " ") /\
  lit " " <> [] /\
  fst (process_lines (Demo.answers (lit "Hallo")) Demo.DE Demo.default
         [src; tgt] Demo.with_key)
  = Ok [src; decl Demo.indent "new" (lit "Hallo")] /\
  decl Demo.indent "new" (lit "Hallo") <> tgt.
Proof.
  cbv zeta. repeat apply conj; try (vm_compute; reflexivity);
    vm_compute; discriminate.
Qed.

(* ================================================================== *)
(** ** The pending source text (C4) *)

(** C4.  At every iteration of the scan that returns: a line matching
    the source pattern makes its payload the pending source text, and the
    pending source text becomes a new value only on such a line; it is
    given up, and the world
    touched at all, only on a line matching the target pattern; a line
    matching neither pattern leaves it as it was; and after any line
    matching the target pattern it is empty, whether or not the line was
    rewritten. *)
Theorem C4_pending_source_text :
  forall service lang form st line w st' w',
    loop_body service lang form st line w = (Ok st', w') ->
    (forall t, old_match line = Some t -> buffer_old_text st' = Some t) /\
    (forall t, buffer_old_text st' = Some t ->
               buffer_old_text st' <> buffer_old_text st ->
               old_match line = Some t) /\
    (buffer_old_text st <> None -> buffer_old_text st' = None ->
     new_match line <> None) /\
    (new_match line = None -> w' = w) /\
    (old_match line = None -> new_match line = None ->
     buffer_old_text st' = buffer_old_text st) /\
    (new_match line <> None -> buffer_old_text st' = None).
Proof.
  intros service lang form st line w st' w' H.
  pose proof (loop_body_ok _ _ _ _ _ _ _ _ H) as [Hb _].
  unfold pending_step in Hb.
  repeat split.
  - intros t Ht. now rewrite Hb, Ht.
  - intros t Ht Hne. rewrite Hb in Ht, Hne.
    destruct (old_match line); [assumption|].
    destruct (new_match line); [discriminate|congruence].
  - intros Hs Hn. rewrite Hb in Hn.
    destruct (old_match line); [discriminate|].
    destruct (new_match line); congruence.
  - intros Hn. rewrite loop_body_echo in H by auto. congruence.
  - intros Ho Hn. now rewrite Hb, Ho, Hn.
  - intros Hn. rewrite Hb.
    destruct (old_match line) as [t|] eqn:Eo.
    + apply old_new_exclusive in Eo. congruence.
    + destruct (new_match line); congruence.
Qed.

(* ================================================================== *)
(** ** The missing credential (C5) *)

(** C5.  Without a credential (the variable unset or empty)
    [translate_text] raises [ValueError] and the only new event is its own
    call: no request.  Hence no run of [process_rpy_file] started without
    a credential issues a request, however it ends. *)
Theorem C5_no_request_without_credential :
  forall service w,
    key_absent (DEEPL_API_KEY w) = true ->
    (forall txt lang form,
        translate_text service txt lang form w =
        (Raised ValueError,
         World (DEEPL_API_KEY w) (files w)
               (trace w ++ [CallTranslate txt lang form]))) /\
    (forall rpy_path lang form r w',
        process_rpy_file service rpy_path lang form w = (r, w') ->
        exists evs, trace w' = trace w ++ evs /\ filter is_post evs = []).
Proof.
  intros service w Hk. split.
  - intros. now apply translate_text_no_key.
  - intros rpy_path lang form r w'.
    unfold process_rpy_file, bind at 1, read_text.
    destruct (files w rpy_path) as [c|].
    2:{ intros H; injection H as _ <-. exists []. now rewrite app_nil_r. }
    unfold bind, process_lines, bind, ret.
    destruct (for_lines service lang form init
                (splitlines (universal_newlines c)) w) as [[st|e] w1] eqn:E;
      apply for_lines_no_key in E; try assumption;
      destruct E as (_ & _ & evs & T & P).
    + unfold write_text. intros H; injection H as _ <-. simpl. eauto.
    + intros H; injection H as _ <-. eauto.
Qed.

(* ================================================================== *)
(** ** The target-language code (C6) *)

(** C6, in the form that holds.  The code of a token is the entry of
    the table for the lower-cased token when there is one, and otherwise
    the upper casing of the lower-cased token, which for a token of ASCII
    characters is the upper-cased token; german gives DE and xy gives
    XY. *)
Theorem C6_target_language_code :
  forall token,
    resolve_target_lang token =
    match dict_get LANGUAGE_MAP (lower token) with
    | Some code => code
    | None => upper (lower token)
    end /\
    (is_ascii token = true -> upper (lower token) = upper token) /\
    resolve_target_lang (lit "german") = lit "DE" /\
    resolve_target_lang (lit "xy") = lit "XY".
Proof.
  intros token. split; [reflexivity|].
  split; [apply upper_lower_ascii|]. split; reflexivity.
Qed.

(** C6 as worded fails on the token made of U+212A KELVIN SIGN: the table
    has no entry for its lower case k, the code is the Latin capital K,
    and the upper-cased token is the Kelvin sign itself. *)
Lemma C6_kelvin_sign_token :
  let token := [8490%N] in
  dict_get LANGUAGE_MAP (lower token) = None /\
  resolve_target_lang token = lit "K" /\
  upper token = token /\
  resolve_target_lang token <> upper token.
Proof.
  cbv zeta. repeat apply conj; try (vm_compute; reflexivity).
  vm_compute. discriminate.
Qed.

(* ================================================================== *)
(** ** Files without declarations (C7) *)

(** C7, in the form that holds.  When no line of a file matches the
    source or the target pattern, the run returns, issues no request,
    leaves the other files alone and writes back the lines of the file as
    they were, joined by line feeds.  That is the original content when
    the file has no line boundary other than line feeds and does not end
    with one. *)
Theorem C7_unrelated_content :
  forall service rpy_path lang form content w,
    files w rpy_path = Some content ->
    Forall (fun l => old_match l = None /\ new_match l = None)
           (splitlines (universal_newlines content)) ->
    exists w',
      process_rpy_file service rpy_path lang form w = (Ok tt, w') /\
      files w' rpy_path
      = Some (join_lines (splitlines (universal_newlines content))) /\
      (forall q, str_eqb q rpy_path = false -> files w' q = files w q) /\
      trace w' = trace w /\
      (only_LF_breaks content = true -> no_final_LF content = true ->
       files w' rpy_path = Some content).
Proof.
  intros service rpy_path lang form content w Hfile Hlines.
  unfold process_rpy_file, bind at 1, read_text. rewrite Hfile.
  unfold bind, process_lines, bind, ret.
  rewrite for_lines_echo.
  2:{ right. eapply Forall_impl; [|exact Hlines]. now intros l [_ H]. }
  unfold write_text. simpl. eexists. split; [reflexivity|]. simpl.
  rewrite str_eqb_refl. repeat split.
  - intros q Hq. now rewrite Hq.
  - intros Hb Hf. rewrite universal_newlines_plain by assumption.
    unfold splitlines. now rewrite join_splitlines_from.
Qed.

(** C7 as worded fails on a one-line file that ends with a line feed, as
    text files do: what is written back has lost it. *)
Lemma C7_final_newline_lost :
  let content := lit "# game/script.rpy:12" ++ [LF] in
  let rpy_path := lit "game/tl/german/script.rpy" in
  let w := Demo.one_file rpy_path content in
  Forall (fun l => old_match l = None /\ new_match l = None)
         (splitlines (universal_newlines content)) /\
  exists w',
    process_rpy_file Demo.unreachable rpy_path Demo.DE Demo.default w
    = (Ok tt, w') /\
    files w' rpy_path = Some (lit "# game/script.rpy:12") /\
    files w' rpy_path <> files w rpy_path.
Proof.
  split.
  - vm_compute. repeat constructor.
  - eexists. split; [reflexivity|]. split; [reflexivity|].
    vm_compute. discriminate.
Qed.

(* ================================================================== *)
(** ** Target lines reached without a pending source text (C8) *)

(** C8.  A target declaration with a blank payload that is reached while
    no source text is pending is appended as it is, and the world is the
    one the scan had before the line: no call of [translate_text], no
    request.  That is the case in particular when no line before it
    matches the source pattern; and in every completed run the output
    then has the line itself at its position. *)
Theorem C8_target_without_source :
  forall service lang form pre line p,
    new_match line = Some p ->
    strip_is_empty p = true ->
    (forall w st w1,
        for_lines service lang form init pre w = (Ok st, w1) ->
        buffer_old_text st = None ->
        for_lines service lang form init (pre ++ [line]) w
        = (Ok (Scan None (output_lines st ++ [line])), w1)) /\
    (Forall (fun l => old_match l = None) pre ->
     forall w,
       for_lines service lang form init (pre ++ [line]) w
       = (Ok (Scan None (pre ++ [line])), w) /\
       forall post out w',
         process_lines service lang form (pre ++ line :: post) w = (Ok out, w') ->
         nth_error out (length pre) = Some line).
Proof.
  intros service lang form pre line p Hn Hs. split.
  - intros w st w1 Hpre Hb. rewrite for_lines_app, Hpre. simpl. unfold bind.
    rewrite loop_body_echo by auto. unfold ret, pending_step.
    destruct (old_match line) as [t|] eqn:Eo.
    + apply old_new_exclusive in Eo. congruence.
    + now rewrite Hn.
  - intros Hpre w.
    assert (Hscan : for_lines service lang form init pre w
                    = (Ok (Scan (pending_after None pre) pre), w)).
    { rewrite for_lines_echo by (left; auto). reflexivity. }
    assert (Hnone : pending_after None pre = None).
    { clear - Hpre. unfold pending_after.
      induction Hpre as [|l pre Hl _ IH]; simpl; [reflexivity|].
      unfold pending_step at 2. rewrite Hl.
      now destruct (new_match l). }
    rewrite Hnone in Hscan.
    assert (Hstep : loop_body service lang form (Scan None pre) line w
                    = (Ok (Scan None (pre ++ [line])), w)).
    { rewrite loop_body_echo by auto. unfold pending_step. simpl.
      destruct (old_match line) as [t|] eqn:Eo.
      - apply old_new_exclusive in Eo. congruence.
      - now rewrite Hn. }
    split.
    + rewrite for_lines_app, Hscan. simpl. unfold bind. now rewrite Hstep.
    + intros post out w' Hrun.
      apply process_lines_split in Hrun.
      destruct Hrun as (st & w1 & st2 & w2 & o & rest & H1 & H2 & Hlen & Ho & _ & Hout & _).
      rewrite Hscan in H1. injection H1 as <- <-.
      rewrite Hstep in H2. injection H2 as <- <-. simpl in *.
      apply app_inv_head in Ho. injection Ho as <-.
      rewrite Hout, nth_error_app2, Nat.sub_diag by lia. reflexivity.
Qed.

(* ================================================================== *)
(** ** Source lines without a target line (C9) *)

(** C9.  When no line after a source declaration matches the target
    pattern, every line after it is emitted as it is and the world is not
    touched, whatever payload the source line carries: the run with
    another source line in its place, of any payload (none at all
    included), emits the same lines after it. *)
Theorem C9_source_without_target :
  forall service lang form pre src t src' t' post w st w1,
    for_lines service lang form init pre w = (Ok st, w1) ->
    old_match src = Some t ->
    old_match src' = Some t' ->
    Forall (fun l => new_match l = None) post ->
    process_lines service lang form (pre ++ src :: post) w
    = (Ok (output_lines st ++ src :: post), w1) /\
    process_lines service lang form (pre ++ src' :: post) w
    = (Ok (output_lines st ++ src' :: post), w1).
Proof.
  intros service lang form pre src t src' t' post w st w1 Hpre Hs Hs' Hpost.
  assert (G : forall l u, old_match l = Some u ->
            process_lines service lang form (pre ++ l :: post) w
            = (Ok (output_lines st ++ l :: post), w1)).
  { intros l u Hl. unfold process_lines, bind.
    rewrite for_lines_app, Hpre. simpl. unfold bind.
    rewrite loop_body_echo by (left; congruence).
    rewrite for_lines_echo by (right; assumption).
    simpl. unfold ret. now rewrite <- app_assoc. }
  split; eauto.
Qed.

(* ================================================================== *)
(** ** Lines written and read back *)

Lemma splitlines_from_universal n : forall s cur,
  length s <= n ->
  splitlines_from cur (universal_newlines s) = splitlines_from cur s.
Proof.
  induction n as [|n IH]; intros s cur Hn.
  - destruct s; [reflexivity|simpl in Hn; lia].
  - destruct s as [|c r]; [reflexivity|]. simpl in Hn.
    cbn [universal_newlines]. destruct (char_eqb c CR) eqn:Ec.
    + apply N.eqb_eq in Ec. subst c.
      cbn [splitlines_from]. change (is_linebreak LF) with true.
      change (is_linebreak CR) with true. change (char_eqb LF CR) with false.
      change (char_eqb CR CR) with true. cbv iota. f_equal.
      destruct r as [|d r']; [reflexivity|].
      simpl in Hn. destruct (char_eqb d LF); apply IH; simpl; lia.
    + cbn [splitlines_from]. rewrite Ec.
      destruct (is_linebreak c); [f_equal|]; apply IH; lia.
Qed.

Lemma splitlines_universal s :
  splitlines (universal_newlines s) = splitlines s.
Proof. apply (splitlines_from_universal (length s)). lia. Qed.

Lemma splitlines_from_line l : forall cur s,
  one_line l = true ->
  splitlines_from cur (l ++ s) = splitlines_from (cur ++ l) s.
Proof.
  induction l as [|c l IH]; intros cur s H.
  - now rewrite app_nil_r.
  - simpl in H. apply andb_true_iff in H. destruct H as [Hc Hl].
    apply negb_true_iff in Hc. cbn [app splitlines_from]. rewrite Hc.
    rewrite IH by assumption. now rewrite <- app_assoc.
Qed.

Lemma splitlines_join ls :
  forallb one_line ls = true -> no_final_empty ls = true ->
  splitlines (join_lines ls) = ls.
Proof.
  unfold splitlines. induction ls as [|l rest IH]; intros Hl Hf;
    [reflexivity|].
  simpl in Hl. apply andb_true_iff in Hl. destruct Hl as [Hl Hrest].
  destruct rest as [|l2 rest].
  - cbn [join_lines]. rewrite <- (app_nil_r l) at 1.
    rewrite splitlines_from_line by assumption. cbn.
    destruct l; [discriminate|reflexivity].
  - change (join_lines (l :: l2 :: rest))
      with (l ++ LF :: join_lines (l2 :: rest)).
    rewrite splitlines_from_line by assumption.
    cbn [splitlines_from app]. change (is_linebreak LF) with true.
    change (char_eqb LF CR) with false. cbv iota.
    rewrite IH; auto.
Qed.

(* ================================================================== *)
(** ** One output line per input line (C10) *)

(** C10.  A run on a file that returns has written the join of an
    output list that has one line for each line of the file, in order:
    each iteration appended exactly one line, the input line at that
    position or that line rewritten by the substitution of line 98.  The
    written file has these lines, and so as many lines as the file had,
    when no output line holds a line boundary and the last one is not
    empty. *)
Theorem C10_one_line_per_line :
  forall service rpy_path lang form content w w',
    files w rpy_path = Some content ->
    process_rpy_file service rpy_path lang form w = (Ok tt, w') ->
    let lines := splitlines (universal_newlines content) in
    (forall st line w0 st' w0',
        loop_body service lang form st line w0 = (Ok st', w0') ->
        exists o, output_lines st' = output_lines st ++ [o]) /\
    exists out,
      files w' rpy_path = Some (join_lines out) /\
      length out = length lines /\
      Forall2 emitted_for lines out /\
      (forallb one_line out = true -> no_final_empty out = true ->
       splitlines (universal_newlines (join_lines out)) = out).
Proof.
  intros service rpy_path lang form content w w' Hc H lines. split.
  - intros st line w0 st' w0' E.
    apply loop_body_ok in E. destruct E as [_ [o [Ho _]]]. eauto.
  - revert H. unfold process_rpy_file, bind at 1, read_text. rewrite Hc.
    unfold bind at 1. fold lines.
    destruct (process_lines service lang form lines w) as [[out|e] w1] eqn:E;
      [|discriminate].
    unfold write_text. intros H; injection H as <-.
    apply process_lines_ok in E. exists out. cbn [files].
    rewrite str_eqb_refl. split; [reflexivity|].
    split; [symmetry; eapply Forall2_length; eassumption|].
    split; [assumption|].
    intros Hl Hf. rewrite splitlines_universal. now apply splitlines_join.
Qed.

(** C10 as worded fails on a file that ends with an empty line: the scan
    has two lines and appends two, and the file written has one. *)
Lemma C10_final_empty_line_dropped :
  let content := lit "label start:" ++ [LF; LF] in
  let rpy_path := lit "game/tl/german/script.rpy" in
  let w := Demo.one_file rpy_path content in
  splitlines (universal_newlines content) = [lit "label start:"; []] /\
  exists w' written,
    process_rpy_file Demo.unreachable rpy_path Demo.DE Demo.default w
    = (Ok tt, w') /\
    files w' rpy_path = Some written /\
    written = lit "label start:" ++ [LF] /\
    splitlines (universal_newlines written) = [lit "label start:"] /\
    length (splitlines (universal_newlines written))
    <> length (splitlines (universal_newlines content)).
Proof.
  split; [reflexivity|].
  eexists. exists (lit "label start:" ++ [LF]).
  split; [reflexivity|]. split; [reflexivity|]. split; [reflexivity|].
  split; [reflexivity|]. vm_compute. discriminate.
Qed.

(* ================================================================== *)
(** ** The theorems at concrete runs *)

Lemma C3_filled_target_kept_run :
  let src := decl Demo.indent "old" (lit "Hi") in
  let tgt := decl Demo.indent "new" (lit "Hallo") in
  new_match tgt = Some (lit "Hallo") /\
  strip_is_empty (lit "Hallo") = false /\
  process_lines (Demo.answers (lit "Servus")) Demo.DE Demo.default
                [src; tgt] Demo.with_key = (Ok [src; tgt], Demo.with_key) /\
  nth_error [src; tgt] 1 = Some tgt.
Proof.
  intros src tgt.
  split; [reflexivity|]. split; [reflexivity|]. split; [reflexivity|].
  apply (proj1 (C3_filled_target_kept (Demo.answers (lit "Servus"))
                  Demo.DE Demo.default)
           [src] tgt (lit "Hallo") [] Demo.with_key [src; tgt] Demo.with_key);
    reflexivity.
Defined.

Lemma C4_pending_source_text_run :
  let st := Scan (Some (lit "Hi")) [decl Demo.indent "old" (lit "Hi")] in
  let line := decl Demo.indent "new" [] in
  let st' := Scan None [decl Demo.indent "old" (lit "Hi");
                        decl Demo.indent "new" (lit "Hallo")] in
  let w' := World (Some (lit "secret")) (fun _ => None)
              [CallTranslate (lit "Hi") Demo.DE Demo.default;
               Post (Request (lit "secret") (lit "Hi") Demo.DE None)] in
  loop_body (Demo.answers (lit "Hallo")) Demo.DE Demo.default st line
            Demo.with_key = (Ok st', w') /\
  buffer_old_text st' = None.
Proof.
  intros st line st' w'.
  split; [reflexivity|].
  refine (proj2 (proj2 (proj2 (proj2 (proj2
    (C4_pending_source_text (Demo.answers (lit "Hallo"))
       Demo.DE Demo.default st line Demo.with_key st' w' _))))) _).
  - reflexivity.
  - discriminate.
Defined.

Lemma C5_no_request_without_credential_run :
  key_absent (DEEPL_API_KEY Demo.without_key) = true /\
  translate_text Demo.unreachable (lit "Hi") Demo.DE Demo.default
                 Demo.without_key
  = (Raised ValueError,
     World None (fun _ => None)
           [CallTranslate (lit "Hi") Demo.DE Demo.default]).
Proof.
  split; [reflexivity|].
  apply (proj1 (C5_no_request_without_credential Demo.unreachable
                  Demo.without_key eq_refl)).
Defined.

Lemma C6_target_language_code_run :
  is_ascii (lit "Pt-Br") = true /\
  resolve_target_lang (lit "Pt-Br") = upper (lit "Pt-Br").
Proof.
  split; [reflexivity|].
  destruct (C6_target_language_code (lit "Pt-Br")) as (H1 & H2 & _).
  rewrite H1. apply H2. reflexivity.
Defined.

Lemma C7_unrelated_content_run :
  let content := lit "# comment" ++ LF :: lit "label start:" in
  let rpy_path := lit "script.rpy" in
  files (Demo.one_file rpy_path content) rpy_path = Some content /\
  Forall (fun l => old_match l = None /\ new_match l = None)
         (splitlines (universal_newlines content)) /\
  exists w',
    process_rpy_file Demo.unreachable rpy_path Demo.DE Demo.default
                     (Demo.one_file rpy_path content) = (Ok tt, w') /\
    files w' rpy_path
    = Some (join_lines (splitlines (universal_newlines content))) /\
    (forall q, str_eqb q rpy_path = false ->
               files w' q = files (Demo.one_file rpy_path content) q) /\
    trace w' = trace (Demo.one_file rpy_path content) /\
    (only_LF_breaks content = true -> no_final_LF content = true ->
     files w' rpy_path = Some content).
Proof.
  intros content rpy_path.
  assert (Hlines : Forall (fun l => old_match l = None /\ new_match l = None)
                          (splitlines (universal_newlines content)))
    by (vm_compute; repeat constructor).
  split; [reflexivity|]. split; [exact Hlines|].
  apply (C7_unrelated_content Demo.unreachable rpy_path Demo.DE Demo.default
           content (Demo.one_file rpy_path content) eq_refl Hlines).
Defined.

Lemma C8_target_without_source_run :
  let line := decl Demo.indent "new" [] in
  let pre := [lit "translate german strings:"] in
  new_match line = Some [] /\
  Forall (fun l => old_match l = None) pre /\
  for_lines Demo.unreachable Demo.DE Demo.default init (pre ++ [line])
            Demo.without_key
  = (Ok (Scan None (pre ++ [line])), Demo.without_key).
Proof.
  intros line pre.
  assert (Hpre : Forall (fun l => old_match l = None) pre)
    by (vm_compute; repeat constructor).
  split; [reflexivity|]. split; [exact Hpre|].
  exact (proj1 (proj2 (C8_target_without_source Demo.unreachable Demo.DE
                         Demo.default pre line [] eq_refl eq_refl)
                  Hpre Demo.without_key)).
Defined.

Lemma C9_source_without_target_run :
  let src := decl Demo.indent "old" (lit "Hi") in
  let src' := decl Demo.indent "old" [] in
  let post := [lit "# end"] in
  old_match src = Some (lit "Hi") /\
  old_match src' = Some [] /\
  Forall (fun l => new_match l = None) post /\
  process_lines Demo.unreachable Demo.DE Demo.default (src :: post)
                Demo.without_key
  = (Ok (src :: post), Demo.without_key) /\
  process_lines Demo.unreachable Demo.DE Demo.default (src' :: post)
                Demo.without_key
  = (Ok (src' :: post), Demo.without_key).
Proof.
  intros src src' post.
  assert (Hpost : Forall (fun l => new_match l = None) post)
    by (vm_compute; repeat constructor).
  split; [reflexivity|]. split; [reflexivity|]. split; [exact Hpost|].
  exact (C9_source_without_target Demo.unreachable Demo.DE Demo.default
           [] src (lit "Hi") src' [] post Demo.without_key init
           Demo.without_key eq_refl eq_refl eq_refl Hpost).
Defined.

Lemma C10_one_line_per_line_run :
  let content := decl Demo.indent "old" (lit "Hi") ++ LF ::
                 decl Demo.indent "new" [] ++ [LF] in
  let rpy_path := lit "script.rpy" in
  let w := Demo.one_file rpy_path content in
  let w' := World (Some (lit "secret"))
              (fun q => if str_eqb q rpy_path
                        then Some (decl Demo.indent "old" (lit "Hi") ++ LF ::
                                   decl Demo.indent "new" (lit "Hallo"))
                        else files w q)
              [CallTranslate (lit "Hi") Demo.DE Demo.default;
               Post (Request (lit "secret") (lit "Hi") Demo.DE None)] in
  files w rpy_path = Some content /\
  process_rpy_file (Demo.answers (lit "Hallo")) rpy_path Demo.DE Demo.default w
  = (Ok tt, w') /\
  exists out,
    files w' rpy_path = Some (join_lines out) /\
    length out = length (splitlines (universal_newlines content)) /\
    Forall2 emitted_for (splitlines (universal_newlines content)) out /\
    (forallb one_line out = true -> no_final_empty out = true ->
     splitlines (universal_newlines (join_lines out)) = out).
Proof.
  intros content rpy_path w w'.
  split; [reflexivity|]. split; [reflexivity|].
  exact (proj2 (C10_one_line_per_line (Demo.answers (lit "Hallo")) rpy_path
                  Demo.DE Demo.default content w w' eq_refl eq_refl)).
Defined.


(* ================================================================== *)
(** ** Further properties: the patterns *)

Lemma str_eqb_eq a : forall b, str_eqb a b = true <-> a = b.
Proof.
  induction a as [|x a IH]; intros [|y b]; simpl; split; intros H;
    try reflexivity; try discriminate.
  - apply andb_true_iff in H. destruct H as [Hx Hab].
    apply N.eqb_eq in Hx. apply IH in Hab. now subst.
  - injection H as -> ->. unfold char_eqb. rewrite N.eqb_refl.
    now apply IH.
Qed.

Lemma accepts_any_no_LF s : ~ In LF s -> forallb (Re.accepts Re.Any) s = true.
Proof.
  intros H. apply forallb_forall. intros x Hx. cbn [Re.accepts].
  destruct (char_eqb x LF) eqn:E; [|reflexivity].
  apply N.eqb_eq in E. subst x. contradiction.
Qed.

(** On a line without a line feed the payload of a match ends at the
    last quote of the line. *)
Lemma last_quote_no_quote tail :
  last_quote tail -> ~ In LF tail -> ~ In quote tail.
Proof.
  intros Hlast Hlf Hq. apply in_split in Hq. destruct Hq as (t1 & t2 & ->).
  apply (Hlast (quote :: t1) t2); [reflexivity|discriminate|].
  apply accepts_any_no_LF. intros [H|H]; [discriminate|].
  apply Hlf, in_or_app. now left.
Qed.

Lemma declaration_iff k1 kw line t :
  is_space k1 = false -> ~ In LF line ->
  Re.match_group1 (Re.declaration (k1 :: kw)) line = Some t
  <-> declaration_shape (k1 :: kw) line t.
Proof.
  intros Hk Hlf. split.
  - intros H. apply declaration_inv in H; [|assumption].
    destruct H as (ws & sp & tail & Hline & Hws & Hne & Hsp & Hp & Hlast).
    exists ws, sp, tail. repeat split; auto.
    apply (last_quote_no_quote tail Hlast). intros Hin. apply Hlf.
    rewrite Hline. apply in_or_app. right. apply in_or_app. right.
    apply in_or_app. right. right. apply in_or_app. right. now right.
  - intros (ws & sp & tail & Hline & Hws & Hne & Hsp & Hq). subst line.
    apply declaration_match; auto. apply accepts_any_no_LF.
    intros Hin. apply Hlf. apply in_or_app. right. apply in_or_app. right.
    apply in_or_app. right. right. apply in_or_app. now left.
Qed.

Lemma old_match_shape line t :
  ~ In LF line ->
  (old_match line = Some t <-> declaration_shape (lit "old") line t).
Proof.
  intros Hlf. unfold old_match. rewrite old_pattern_eq.
  apply (declaration_iff 111%N [108%N; 100%N] line t eq_refl Hlf).
Qed.

Lemma new_match_shape line t :
  ~ In LF line ->
  (new_match line = Some t <-> declaration_shape (lit "new") line t).
Proof.
  intros Hlf. unfold new_match. rewrite new_pattern_eq.
  apply (declaration_iff 110%N [101%N; 119%N] line t eq_refl Hlf).
Qed.

(** X1.  On a line of a file (no line feed in it) the source pattern of
    line 72 matches with payload [t] exactly when the line is white
    space, [old], at least one white space, a quote, [t], a quote and a
    rest without quote: the payload runs from the first quote after the
    keyword to the last quote of the line.  The target pattern of line 74
    does the same with [new]. *)
Theorem X1_patterns_match_shape :
  forall line t,
    ~ In LF line ->
    (old_match line = Some t <-> declaration_shape (lit "old") line t) /\
    (new_match line = Some t <-> declaration_shape (lit "new") line t).
Proof.
  intros line t Hlf. split.
  - now apply old_match_shape.
  - now apply new_match_shape.
Qed.

(** X2.  No line matches both the source and the target pattern, so the
    order of the two tests in the loop never matters. *)
Theorem X2_patterns_exclusive :
  forall line, old_match line = None \/ new_match line = None.
Proof.
  intros line. destruct (old_match line) as [t|] eqn:E; [|now left].
  right. exact (old_new_exclusive line t E).
Qed.

(* ================================================================== *)
(** ** Further properties: rewriting a target line *)

(** X3.  When a target declaration with a blank payload is reached with a
    pending source text and the translation call returns a text without
    a backslash, the line is rewritten to: what was before the keyword,
    [new], one space (whatever white space there was), the translation
    between quotes, and what was after the closing quote; the pending
    text is given up. *)
Theorem X3_blank_target_rewritten :
  forall service lang form st line p buffered translation w w1,
    new_match line = Some p ->
    strip_is_empty p = true ->
    ~ In LF line ->
    buffer_old_text st = Some buffered ->
    translate_text service buffered lang form w = (Ok translation, w1) ->
    ~ In backslash translation ->
    exists ws sp tail,
      line = ws ++ lit "new" ++ sp ++ quote :: p ++ quote :: tail /\
      forallb is_space ws = true /\ sp <> [] /\ forallb is_space sp = true /\
      ~ In quote tail /\
      loop_body service lang form st line w =
      (Ok (Scan None
             (output_lines st
              ++ [ws ++ lit "new " ++ quote :: translation ++ quote :: tail])),
       w1).
Proof.
  intros service lang form st line p buffered translation w w1.
  apply fill_blank_target.
Qed.




(* ================================================================== *)
(** ** Further properties: what a scan sends *)

Lemma params_formality k t lang form :
  formality (params_of k t lang form) = None
  \/ formality (params_of k t lang form) = Some (lit "more")
  \/ formality (params_of k t lang form) = Some (lit "less").
Proof.
  unfold params_of. cbn [formality].
  destruct (str_eqb (lower form) (lit "more")) eqn:Em.
  - apply str_eqb_eq in Em. rewrite Em. auto.
  - destruct (str_eqb (lower form) (lit "less")) eqn:El; [|auto].
    apply str_eqb_eq in El. rewrite El. auto.
Qed.

Section Sent.

Variable service : list event -> request -> reply.
Variables lang form : str.

(** What a call of [translate_text] leaves behind. *)
Lemma translate_text_events t w r w' :
  translate_text service t lang form w = (r, w') ->
  DEEPL_API_KEY w' = DEEPL_API_KEY w /\ files w' = files w /\
  exists evs,
    trace w' = trace w ++ evs /\
    ((key_absent (DEEPL_API_KEY w) = true /\ filter is_post evs = [])
     \/ (exists k, DEEPL_API_KEY w = Some k /\ k <> [] /\
                   filter is_post evs = [Post (params_of k t lang form)])).
Proof.
  destruct (key_absent (DEEPL_API_KEY w)) eqn:Hk.
  - rewrite translate_text_no_key by assumption.
    intros H; injection H as _ <-. cbn. repeat split. eauto.
  - destruct (DEEPL_API_KEY w) as [[|c k]|] eqn:Ek; try discriminate.
    rewrite (translate_text_with_key service lang form t (c :: k) w Ek)
      by discriminate.
    cbv zeta.
    destruct (service _ _); intros H; injection H as _ <-; cbn;
      repeat split; auto;
      eexists; (split; [rewrite <- app_assoc; reflexivity|]);
      right; exists (c :: k); repeat split; auto; discriminate.
Qed.

(** One iteration sends the pending text if the line is a target with a
    blank payload, and nothing otherwise; this also when it raises. *)
Lemma loop_body_events st line w r w' :
  loop_body service lang form st line w = (r, w') ->
  DEEPL_API_KEY w' = DEEPL_API_KEY w /\ files w' = files w /\
  (forall st', r = Ok st' ->
               buffer_old_text st' = pending_step (buffer_old_text st) line) /\
  exists evs,
    trace w' = trace w ++ evs /\
    ((key_absent (DEEPL_API_KEY w) = true /\ filter is_post evs = [])
     \/ (exists k, DEEPL_API_KEY w = Some k /\ k <> [] /\
                   filter is_post evs
                   = List.map (fun b => Post (params_of k b lang form))
                              (to_translate (buffer_old_text st) [line]))).
Proof.
  intros H.
  assert (Hbuf : forall st', r = Ok st' ->
            buffer_old_text st' = pending_step (buffer_old_text st) line).
  { intros st' ->. now apply loop_body_ok in H. }
  assert (Quiet : loop_body service lang form st line w =
                  (Ok (Scan (pending_step (buffer_old_text st) line)
                            (output_lines st ++ [line])), w) ->
                  to_translate (buffer_old_text st) [line] = [] ->
                  DEEPL_API_KEY w' = DEEPL_API_KEY w /\ files w' = files w /\
                  (forall st', r = Ok st' ->
                     buffer_old_text st'
                     = pending_step (buffer_old_text st) line) /\
                  exists evs,
                    trace w' = trace w ++ evs /\
                    ((key_absent (DEEPL_API_KEY w) = true /\
                      filter is_post evs = [])
                     \/ (exists k, DEEPL_API_KEY w = Some k /\ k <> [] /\
                           filter is_post evs
                           = List.map (fun b => Post (params_of k b lang form))
                               (to_translate (buffer_old_text st) [line])))).
  { intros E Hnone. rewrite E in H. injection H as _ <-.
    repeat split; auto. exists []. rewrite app_nil_r. split; [reflexivity|].
    rewrite Hnone. cbn.
    destruct (DEEPL_API_KEY w) as [[|c k]|] eqn:Ek; auto.
    right. exists (c :: k). repeat split; auto. discriminate. }
  cbn [to_translate] in *.
  destruct (old_match line) as [t|] eqn:Eo.
  { apply Quiet; [|reflexivity]. apply loop_body_echo. left. congruence. }
  destruct (new_match line) as [p|] eqn:En.
  2:{ apply Quiet; [|reflexivity]. apply loop_body_echo. auto. }
  destruct (buffer_old_text st) as [b|] eqn:Eb.
  2:{ apply Quiet; [|reflexivity]. rewrite <- Eb. apply loop_body_echo. auto. }
  destruct (strip_is_empty p) eqn:Es.
  2:{ apply Quiet; [|reflexivity]. rewrite <- Eb. apply loop_body_echo.
      right; right; right; eauto. }
  clear Quiet. unfold loop_body in H. rewrite Eo, En, Eb, Es in H.
  unfold bind at 1 in H.
  destruct (translate_text service b lang form w) as [[tr|e] w1] eqn:Et;
    apply translate_text_events in Et;
    destruct Et as (K & F & evs & T & P).
  - assert (w' = w1).
    { destruct (Re.sub _ _ _); now injection H as _ <-. }
    subst w1. repeat split; auto. exists evs. split; [assumption|].
    destruct P as [P|(k & P1 & P2 & P3)]; [now left|].
    right. exists k. repeat split; auto.
  - injection H as _ <-. repeat split; auto. exists evs. split; [assumption|].
    destruct P as [P|(k & P1 & P2 & P3)]; [now left|].
    right. exists k. repeat split; auto.
Qed.

Lemma to_translate_cons buf line rest :
  to_translate buf (line :: rest)
  = to_translate buf [line] ++ to_translate (pending_step buf line) rest.
Proof.
  unfold pending_step. cbn [to_translate].
  destruct (old_match line); [reflexivity|].
  destruct (new_match line); [|now destruct buf].
  destruct buf; [|reflexivity]. now destruct (strip_is_empty _).
Qed.

(** The requests of a scan started with a credential: those of
    [to_translate], in order; all of them when the scan returns, the
    first of them when it raises. *)
Lemma for_lines_requests k lines : forall st w r w',
  DEEPL_API_KEY w = Some k -> k <> [] ->
  for_lines service lang form st lines w = (r, w') ->
  DEEPL_API_KEY w' = Some k /\ files w' = files w /\
  exists evs rest,
    trace w' = trace w ++ evs /\
    List.map (fun b => Post (params_of k b lang form))
             (to_translate (buffer_old_text st) lines)
    = filter is_post evs ++ rest /\
    (forall st', r = Ok st' -> rest = []).
Proof.
  induction lines as [|l lines IH]; intros st w r w' Hk Hne H.
  - cbn in H. injection H as <- <-. repeat split; auto.
    exists [], []. rewrite app_nil_r. auto.
  - cbn [for_lines] in H. unfold bind in H.
    destruct (loop_body service lang form st l w) as [[st1|e] w1] eqn:E1;
      pose proof (loop_body_events _ _ _ _ _ E1) as (K & F & B & evs & T & P);
      (destruct P as [[P _]|(k' & P1 & P2 & P3)];
       [rewrite Hk in P; destruct k; [congruence|discriminate]|]);
      rewrite Hk in P1; injection P1 as <-;
      rewrite to_translate_cons, map_app.
    + assert (Hk1 : DEEPL_API_KEY w1 = Some k) by congruence.
      destruct (IH st1 w1 r w' Hk1 Hne H) as (K' & F' & evs' & rest & T' & R & Z).
      repeat split; try congruence.
      exists (evs ++ evs'), rest. repeat split.
      * rewrite T', T. now rewrite app_assoc.
      * rewrite filter_app, <- app_assoc, <- R, P3.
        now rewrite (B st1 eq_refl).
      * assumption.
    + injection H as <- <-. repeat split; try congruence.
      exists evs, (List.map (fun b => Post (params_of k b lang form))
                     (to_translate (pending_step (buffer_old_text st) l) lines)).
      repeat split; [assumption|now rewrite P3|discriminate].
Qed.

(** Every request of a scan is made for this run. *)
Lemma loop_body_requests_for st line w r w' :
  loop_body service lang form st line w = (r, w') ->
  requests_for lang w w' /\ files w' = files w.
Proof.
  intros H. apply loop_body_events in H.
  destruct H as (K & F & _ & evs & T & P). repeat split; auto.
  exists evs. split; [assumption|].
  apply Forall_forall. intros e He. destruct e; cbn; auto.
  assert (Hin : In (Post r0) (filter is_post evs))
    by (apply filter_In; auto).
  destruct P as [[_ P]|(k & P1 & P2 & P3)].
  - rewrite P in Hin. contradiction.
  - rewrite P3 in Hin. apply in_map_iff in Hin.
    destruct Hin as (b & Hb & _). injection Hb as <-.
    cbn [auth_key target_lang]. repeat split; auto.
    apply params_formality.
Qed.

Lemma requests_for_refl w : requests_for lang w w.
Proof. split; [reflexivity|]. exists []. now rewrite app_nil_r. Qed.

Lemma requests_for_trans w1 w2 w3 :
  requests_for lang w1 w2 -> requests_for lang w2 w3 ->
  requests_for lang w1 w3.
Proof.
  intros (K1 & e1 & T1 & F1) (K2 & e2 & T2 & F2). split; [congruence|].
  exists (e1 ++ e2). split; [rewrite T2, T1; now rewrite app_assoc|].
  apply Forall_app. split; [assumption|].
  eapply Forall_impl; [|exact F2].
  intros e He. destruct e; cbn in *; auto. now rewrite <- K1.
Qed.

Lemma for_lines_requests_for lines : forall st w r w',
  for_lines service lang form st lines w = (r, w') ->
  requests_for lang w w' /\ files w' = files w.
Proof.
  induction lines as [|l lines IH]; intros st w r w' H.
  - cbn in H. injection H as _ <-. split; [apply requests_for_refl|reflexivity].
  - cbn [for_lines] in H. unfold bind in H.
    destruct (loop_body service lang form st l w) as [[st1|e] w1] eqn:E1;
      apply loop_body_requests_for in E1; destruct E1 as [R1 F1].
    + apply IH in H. destruct H as [R2 F2].
      split; [eapply requests_for_trans; eassumption|congruence].
    + injection H as _ <-. auto.
Qed.

End Sent.

(** X5.  With a credential, the requests of a scan are those for the
    texts of [to_translate], in order and with the parameters of lines
    42-50: one request for each target declaration with a blank payload
    that is reached with a pending source text, for that text, and no
    other request.  A scan that returns has sent all of them; a scan that
    raises has sent the first of them. *)
Theorem X5_requests_of_a_scan :
  forall service lang form k lines w r w',
    DEEPL_API_KEY w = Some k -> k <> [] ->
    process_lines service lang form lines w = (r, w') ->
    exists evs rest,
      trace w' = trace w ++ evs /\
      List.map (fun b => Post (params_of k b lang form))
               (to_translate None lines)
      = filter is_post evs ++ rest /\
      (forall out, r = Ok out -> rest = []).
Proof.
  intros service lang form k lines w r w' Hk Hne.
  unfold process_lines, bind.
  destruct (for_lines service lang form init lines w) as [[st|e] w1] eqn:E;
    apply (for_lines_requests service lang form k _ _ _ _ _ Hk Hne) in E;
    destruct E as (_ & _ & evs & rest & T & R & Z);
    intros H; injection H as <- <-; exists evs, rest; repeat split; auto.
  - intros out _. now apply (Z st).
  - discriminate.
Qed.

(* ================================================================== *)
(** ** Further properties: the file *)

Lemma only_rewrites_refl touch w : only_rewrites touch w w.
Proof. repeat split; auto. Qed.

Lemma only_rewrites_trans t1 t2 t w1 w2 w3 :
  only_rewrites t1 w1 w2 -> only_rewrites t2 w2 w3 ->
  incl t1 t -> incl t2 t ->
  only_rewrites t w1 w3.
Proof.
  intros (K1 & F1 & D1) (K2 & F2 & D2) I1 I2. repeat split.
  - congruence.
  - intros q Hq. rewrite F2, F1; auto.
  - intros H. now apply D1, D2.
  - intros H. now apply D2, D1.
Qed.

(** What a run on one file does to the world. *)
Lemma process_rpy_file_effect service rpy_path lang form w r w' :
  process_rpy_file service rpy_path lang form w = (r, w') ->
  requests_for lang w w' /\
  only_rewrites [rpy_path] w w' /\
  (forall e, r = Raised e -> files w' = files w) /\
  (files w rpy_path = None -> r = Raised FileNotFoundError /\ w' = w).
Proof.
  unfold process_rpy_file, bind at 1, read_text.
  destruct (files w rpy_path) as [c|] eqn:Hc.
  2:{ intros H; injection H as <- <-.
      split; [apply requests_for_refl|].
      split; [apply only_rewrites_refl|]. split; auto. }
  unfold bind, process_lines, bind, ret.
  destruct (for_lines service lang form init
              (splitlines (universal_newlines c)) w) as [[st|e] w1] eqn:E;
    apply for_lines_requests_for in E; destruct E as [[K R] F].
  - unfold write_text. intros H; injection H as <- <-.
    split; [split; [exact K|exact R]|]. split; [|split; [discriminate|discriminate]].
    split; [exact K|]. cbn [files]. split.
    + intros q Hq. destruct (str_eqb q rpy_path) eqn:Eq.
      * apply str_eqb_eq in Eq. subst q. exfalso. apply Hq. now left.
      * now rewrite F.
    + intros q. destruct (str_eqb q rpy_path) eqn:Eq.
      * apply str_eqb_eq in Eq. subst q. rewrite Hc.
        split; discriminate.
      * now rewrite F.
  - intros H; injection H as <- <-.
    split; [split; [exact K|exact R]|].
    split; [|split; [auto|discriminate]].
    split; [exact K|]. rewrite F. split; [auto|reflexivity].
Qed.

(** X6.  [process_rpy_file] writes the file only after the whole scan:
    when the scan of the lines of the file raises (missing credential, a
    reply that cannot be read, a replacement string [re.sub] refuses),
    the run raises the same exception in the world the scan left, and
    every file still has its old content.  Whatever the outcome, the run
    changes the content of that one file at most, creates or removes no
    file and keeps the credential; and on a path that holds no file the
    run raises at once and nothing happened. *)
Theorem X6_file_written_last :
  forall service rpy_path lang form w r w',
    process_rpy_file service rpy_path lang form w = (r, w') ->
    only_rewrites [rpy_path] w w' /\
    (forall content e w1,
        files w rpy_path = Some content ->
        process_lines service lang form
                      (splitlines (universal_newlines content)) w
        = (Raised e, w1) ->
        r = Raised e /\ w' = w1 /\ files w' = files w) /\
    (files w rpy_path = None -> r = Raised FileNotFoundError /\ w' = w).
Proof.
  intros service rpy_path lang form w r w' H.
  pose proof (process_rpy_file_effect service rpy_path lang form w r w' H)
    as (_ & Hfr & Hraised & Hnone).
  split; [exact Hfr|]. split; [|exact Hnone].
  intros content e w1 Hc E. revert H Hraised.
  unfold process_rpy_file, bind at 1, read_text. rewrite Hc.
  unfold bind at 1. rewrite E.
  intros H Hraised. injection H as <- <-.
  split; [reflexivity|]. split; [reflexivity|]. now apply (Hraised e).
Qed.

(** X7.  What line 109 writes is read back by line 76 as the same lines
    when no line holds a line boundary and the last line is not empty:
    the scan of a later run then starts from the lines this run wrote. *)
Theorem X7_lines_written_are_read_back :
  forall ls,
    forallb one_line ls = true -> no_final_empty ls = true ->
    splitlines (universal_newlines (join_lines ls)) = ls.
Proof.
  intros ls Hl Hf. rewrite splitlines_universal. now apply splitlines_join.
Qed.

(** X8.  The newline translation of text-mode reading does not change
    the lines [splitlines] gives: the scan sees the same lines whether
    the file has line feeds, carriage returns or both as line ends. *)
Theorem X8_newline_translation_keeps_lines :
  forall content,
    splitlines (universal_newlines content) = splitlines content.
Proof. exact splitlines_universal. Qed.

(* ================================================================== *)
(** ** Further properties: the language code *)

Lemma in_range_true lo hi c :
  (lo <= c)%N -> (c <= hi)%N -> in_range lo hi c = true.
Proof.
  intros H1 H2. unfold in_range.
  now rewrite (proj2 (N.leb_le _ _) H1), (proj2 (N.leb_le _ _) H2).
Qed.

Lemma in_range_false lo hi c :
  (c < lo)%N \/ (hi < c)%N -> in_range lo hi c = false.
Proof.
  intros [H|H]; unfold in_range.
  - now rewrite (proj2 (N.leb_gt _ _) H).
  - rewrite (proj2 (N.leb_gt _ _) H). apply andb_false_r.
Qed.

Lemma lower_char_capital c :
  (65 <= c)%N -> (c <= 90)%N -> lower_char c = (c + 32)%N.
Proof. intros H1 H2. unfold lower_char. now rewrite in_range_true. Qed.

Lemma lower_char_other c :
  (c < 65)%N \/ (90 < c)%N -> c <> 8490%N -> lower_char c = c.
Proof.
  intros H1 H2. unfold lower_char. rewrite in_range_false by assumption.
  unfold char_eqb. now rewrite (proj2 (N.eqb_neq _ _) H2).
Qed.

Lemma upper_char_small c :
  (97 <= c)%N -> (c <= 122)%N -> upper_char c = (c - 32)%N.
Proof. intros H1 H2. unfold upper_char. now rewrite in_range_true. Qed.

Lemma upper_char_other c :
  (c < 97)%N \/ (122 < c)%N -> upper_char c = c.
Proof. intros H. unfold upper_char. now rewrite in_range_false. Qed.

Lemma upper_char_not_lower c : in_range 97%N 122%N (upper_char c) = false.
Proof.
  destruct (N.le_gt_cases 97 c) as [H1|H1];
    [destruct (N.le_gt_cases c 122) as [H2|H2]|].
  - rewrite upper_char_small by assumption. apply in_range_false. lia.
  - rewrite upper_char_other by auto. apply in_range_false. auto.
  - rewrite upper_char_other by auto. apply in_range_false. auto.
Qed.

Lemma lower_upper_lower_char c :
  lower_char (upper_char (lower_char c)) = lower_char c.
Proof.
  destruct (N.le_gt_cases 65 c) as [H1|H1];
    [destruct (N.le_gt_cases c 90) as [H2|H2]|].
  - rewrite (lower_char_capital c) by assumption.
    rewrite upper_char_small by lia.
    rewrite lower_char_capital by lia. lia.
  - destruct (N.eq_dec c 8490) as [->|Hk]; [reflexivity|].
    rewrite (lower_char_other c) by auto.
    destruct (N.le_gt_cases 97 c) as [H3|H3];
      [destruct (N.le_gt_cases c 122) as [H4|H4]|].
    + rewrite upper_char_small by assumption.
      rewrite lower_char_capital by lia. lia.
    + rewrite upper_char_other by auto. now apply lower_char_other; auto.
    + rewrite upper_char_other by auto. now apply lower_char_other; auto.
  - rewrite (lower_char_other c) by (auto; lia).
    rewrite upper_char_other by (left; lia).
    apply lower_char_other; [auto|lia].
Qed.

Lemma no_lower_ascii_upper s : no_lower_ascii (upper s) = true.
Proof.
  unfold no_lower_ascii, upper. induction s as [|c s IH]; [reflexivity|].
  cbn [List.map forallb]. now rewrite upper_char_not_lower, IH.
Qed.

Lemma lower_upper_lower s : lower (upper (lower s)) = lower s.
Proof.
  unfold lower, upper. rewrite !map_map. apply map_ext.
  apply lower_upper_lower_char.
Qed.

(** The codes of the table. *)
Lemma dict_get_code k code :
  dict_get LANGUAGE_MAP k = Some code ->
  In code [lit "DE"; lit "ES"; lit "EN"; lit "FR"; lit "IT"; lit "PL"].
Proof.
  unfold LANGUAGE_MAP. cbn [dict_get].
  repeat match goal with
         | |- context [if str_eqb k ?x then _ else _] => destruct (str_eqb k x)
         end; intros H; try discriminate; injection H as <-; cbn; auto 10.
Qed.

(** X9.  The code resolved for a token of ASCII characters has no
    lower-case letter, and it resolves to itself: giving the code (DE,
    de) in place of the name gives the same code. *)
Theorem X9_code_is_upper_case_and_fixed :
  forall token,
    is_ascii token = true ->
    no_lower_ascii (resolve_target_lang token) = true /\
    resolve_target_lang (resolve_target_lang token)
    = resolve_target_lang token.
Proof.
  intros token _. unfold resolve_target_lang at 1 3 4.
  destruct (dict_get LANGUAGE_MAP (lower token)) as [code|] eqn:E.
  - apply dict_get_code in E. cbn [In] in E.
    repeat (destruct E as [<-|E]; [split; reflexivity|]). contradiction.
  - split; [apply no_lower_ascii_upper|].
    unfold resolve_target_lang. now rewrite lower_upper_lower, E.
Qed.

(* ================================================================== *)
(** ** Further properties: the command line *)

Section MainFacts.

Variable service : list event -> request -> reply.
Variable child : str -> path.
Variable iterdir : option (list path).
Variables is_dir path_exists : path -> bool.
Variable rglob_rpy : path -> list path.

Abbreviation for_rpy_files := (Cli.for_rpy_files service).
Abbreviation for_lang_dirs := (Cli.for_lang_dirs service is_dir rglob_rpy).
Abbreviation main :=
  (Cli.main service child iterdir is_dir path_exists rglob_rpy).
Abbreviation visited :=
  (Cli.visited child iterdir is_dir path_exists rglob_rpy).

Lemma for_rpy_files_effect target form fs : forall w out r w' out',
  for_rpy_files target form fs w out = (r, w', out') ->
  requests_for target w w' /\ only_rewrites fs w w' /\
  (fs = [] -> w' = w).
Proof.
  induction fs as [|f fs IH]; intros w out r w' out' H.
  - cbn in H. injection H as _ <- _.
    split; [apply requests_for_refl|]. split; [apply only_rewrites_refl|auto].
  - cbn [Cli.for_rpy_files] in H.
    destruct (process_rpy_file service f target form w) as [[u|e] w1] eqn:E;
      apply process_rpy_file_effect in E; destruct E as (R1 & O1 & _).
    + apply IH in H. destruct H as (R2 & O2 & _).
      split; [eapply requests_for_trans; eassumption|].
      split; [|discriminate].
      eapply only_rewrites_trans; [exact O1|exact O2| |].
      * intros q [<-|[]]. now left.
      * intros q Hq. now right.
    + injection H as _ <- _. split; [assumption|]. split; [|discriminate].
      eapply only_rewrites_trans;
        [exact O1|apply (only_rewrites_refl [])| |].
      * intros q [<-|[]]. now left.
      * intros q [].
Qed.

Lemma for_lang_dirs_effect target form dirs : forall w out r w' out',
  for_lang_dirs target form dirs w out = (r, w', out') ->
  requests_for target w w' /\
  only_rewrites (flat_map rglob_rpy (filter is_dir dirs)) w w' /\
  (flat_map rglob_rpy (filter is_dir dirs) = [] -> w' = w).
Proof.
  induction dirs as [|d dirs IH]; intros w out r w' out' H.
  - cbn in H. injection H as _ <- _.
    split; [apply requests_for_refl|]. split; [apply only_rewrites_refl|auto].
  - cbn [Cli.for_lang_dirs filter] in H |- *.
    destruct (is_dir d) eqn:Ed; cbn [negb flat_map] in H |- *.
    2:{ now apply IH in H. }
    destruct (for_rpy_files target form (rglob_rpy d) w
                (out ++ [Cli.ProcessingDirectory d])) as [[[u|e] w1] out1] eqn:E;
      apply for_rpy_files_effect in E; destruct E as (R1 & O1 & N1).
    + apply IH in H. destruct H as (R2 & O2 & N2).
      split; [eapply requests_for_trans; eassumption|]. split.
      * eapply only_rewrites_trans; [exact O1|exact O2| |];
          intros q Hq; apply in_or_app; auto.
      * intros Hnil. apply app_eq_nil in Hnil. destruct Hnil as [H1 H2].
        rewrite (N2 H2). now apply N1.
    + injection H as _ <- _. split; [assumption|]. split.
      * eapply only_rewrites_trans;
          [exact O1|apply (only_rewrites_refl [])| |].
        -- intros q Hq. apply in_or_app. now left.
        -- intros q [].
      * intros Hnil. apply app_eq_nil in Hnil. now apply N1.
Qed.

Lemma filter_twice (f : path -> bool) l : filter f (filter f l) = filter f l.
Proof.
  induction l as [|x l IH]; [reflexivity|]. cbn [filter].
  destruct (f x) eqn:E; [cbn [filter]; now rewrite E, IH|assumption].
Qed.

Lemma main_effect args w r w' out :
  main args w = (r, w', out) ->
  requests_for (resolve_target_lang (Cli.language args)) w w' /\
  only_rewrites (visited args) w w' /\
  (visited args = [] -> w' = w).
Proof.
  unfold Cli.main, Cli.visited. destruct (Cli.all args).
  - destruct iterdir as [entries|].
    + intros H. apply for_lang_dirs_effect in H.
      now rewrite filter_twice in H.
    + intros H; injection H as _ <- _.
      split; [apply requests_for_refl|].
      split; [apply only_rewrites_refl|auto].
  - destruct (path_exists (child (lower (Cli.language args)))) eqn:Ee;
      cbn [negb andb].
    + intros H. apply for_lang_dirs_effect in H. cbn [filter] in H.
      destruct (is_dir (child (lower (Cli.language args))));
        cbn [flat_map] in H; [now rewrite app_nil_r in H|assumption].
    + intros H; injection H as _ <- _.
      split; [apply requests_for_refl|].
      split; [apply only_rewrites_refl|auto].
Qed.

End MainFacts.

(** X10.  Whatever the arguments and however the run ends, [main]
    changes the content of no file other than the scripts found under
    the chosen directories ([visited]), creates and removes no file and
    keeps the credential; and when there is no such script (the
    directory of the language is missing or is no directory, or the
    directories hold no script) it leaves the world as it was: no file
    read or written, no request. *)
Theorem X10_main_rewrites_only_the_scripts :
  forall service child iterdir is_dir path_exists rglob_rpy args w r w' out,
    Cli.main service child iterdir is_dir path_exists rglob_rpy args w
    = (r, w', out) ->
    only_rewrites
      (Cli.visited child iterdir is_dir path_exists rglob_rpy args) w w' /\
    (Cli.visited child iterdir is_dir path_exists rglob_rpy args = [] ->
     w' = w).
Proof.
  intros service child iterdir is_dir path_exists rglob_rpy args w r w' out H.
  now apply main_effect in H.
Qed.

(** X11.  Every request of a run of [main] carries the credential of the
    environment, which is then set and not empty, the one code resolved
    from the language argument as target language, and a formality that
    is absent, more or less.  With [--all] that one code goes to the
    scripts of every language directory. *)
Theorem X11_main_requests :
  forall service child iterdir is_dir path_exists rglob_rpy args w r w' out,
    Cli.main service child iterdir is_dir path_exists rglob_rpy args w
    = (r, w', out) ->
    exists evs,
      trace w' = trace w ++ evs /\
      Forall (request_of_run w (resolve_target_lang (Cli.language args))) evs.
Proof.
  intros service child iterdir is_dir path_exists rglob_rpy args w r w' out H.
  apply main_effect in H. now destruct H as [[_ H] _].
Qed.

(* ================================================================== *)
(** ** Further properties: escapes, numbers of requests, runs that return *)

Lemma new_line_template_plain translation :
  ~ In backslash translation -> ~ In backslash (new_line_template translation).
Proof.
  unfold new_line_template. intros H Hin. apply in_app_or in Hin.
  destruct Hin as [Hin|[Hin|Hin]]; [| discriminate |].
  - simpl in Hin. repeat (destruct Hin as [Hin|Hin]; [discriminate|]).
    contradiction.
  - apply in_app_or in Hin. destruct Hin as [Hin|[Hin|[]]];
      [contradiction|discriminate].
Qed.

(** X12.  Whatever the translation, line 98 touches nothing but the span
    from the keyword to the closing quote of a blank target line: what
    is before the keyword and after the closing quote stays, and the
    span is replaced by the replacement string as [re.sub] expands it;
    if [re.sub] refuses the replacement string, the iteration raises
    after the request was made. *)
Theorem X12_only_the_declaration_is_replaced :
  forall service lang form st line p buffered translation w w1,
    new_match line = Some p ->
    strip_is_empty p = true ->
    ~ In LF line ->
    buffer_old_text st = Some buffered ->
    translate_text service buffered lang form w = (Ok translation, w1) ->
    exists ws sp tail,
      line = ws ++ lit "new" ++ sp ++ quote :: p ++ quote :: tail /\
      forallb is_space ws = true /\ ~ In quote tail /\
      match Re.parse_template Re.Normal (new_line_template translation) with
      | None =>
          loop_body service lang form st line w = (Raised TemplateError, w1)
      | Some t =>
          loop_body service lang form st line w =
          (Ok (Scan None
                 (output_lines st
                  ++ [ws ++ Re.expand t (lit "new" ++ sp ++ quote :: p ++ [quote])
                         ++ tail])),
           w1)
      end.
Proof.
  intros service lang form st line p buffered translation w w1
         Hn Hs Hlf Hb Htr.
  assert (Ho : old_match line = None).
  { destruct (old_match line) as [t|] eqn:E; [|reflexivity].
    apply old_new_exclusive in E. congruence. }
  destruct (proj1 (new_match_shape line p Hlf) Hn)
    as (ws & sp & tail & Hline & Hws & Hne & Hsp & Hq).
  exists ws, sp, tail. repeat split; auto.
  destruct (Re.parse_template Re.Normal (new_line_template translation))
    as [t|] eqn:Ep;
    unfold loop_body; rewrite Ho, Hn, Hb, Hs; unfold bind at 1; rewrite Htr;
    unfold Re.sub; rewrite Ep; [|reflexivity].
  rewrite sub_pattern_eq. rewrite Hline at 1.
  change (lit "new") with (110%N :: [101%N; 119%N]).
  rewrite sub_scan_declaration; auto.
  apply accepts_any_no_LF. intros Hin. apply Hlf. rewrite Hline.
  apply in_or_app. right. apply in_or_app. right. apply in_or_app. right.
  right. apply in_or_app. now left.
Qed.

Lemma to_translate_bound lines : forall buf,
  length (to_translate buf lines)
  <= (match buf with Some _ => 1 | None => 0 end)
     + length (filter is_source lines) /\
  length (to_translate buf lines) <= length (filter is_blank_target lines).
Proof.
  induction lines as [|l lines IH]; intros buf; [cbn; lia|].
  cbn [to_translate filter].
  assert (Hs : is_source l
               = match old_match l with Some _ => true | None => false end)
    by reflexivity.
  assert (Hb : is_blank_target l
               = match new_match l with
                 | Some p => strip_is_empty p
                 | None => false
                 end) by reflexivity.
  destruct (old_match l) as [t|] eqn:Eo.
  - rewrite (old_new_exclusive l t Eo) in Hb. rewrite Hs, Hb.
    destruct (IH (Some t)) as [I1 I2]. cbn [length]. split; lia.
  - rewrite Hs. destruct (new_match l) as [p|] eqn:En.
    + rewrite Hb. destruct (IH None) as [I1 I2].
      destruct buf as [b|]; destruct (strip_is_empty p); cbn [length];
        split; lia.
    + rewrite Hb. destruct (IH buf) as [I1 I2]. destruct buf; split; lia.
Qed.

(** X13.  A scan makes at most one request for each source declaration
    of the file and at most one for each target declaration with a blank
    payload, however it ends and whether or not there is a credential. *)
Theorem X13_at_most_one_request_per_pair :
  forall service lang form lines w r w',
    process_lines service lang form lines w = (r, w') ->
    exists evs,
      trace w' = trace w ++ evs /\
      length (filter is_post evs) <= length (filter is_source lines) /\
      length (filter is_post evs) <= length (filter is_blank_target lines).
Proof.
  intros service lang form lines w r w'. unfold process_lines, bind.
  destruct (for_lines service lang form init lines w) as [[st|e] w1] eqn:E;
    intros H; injection H as _ <-.
  all: destruct (key_absent (DEEPL_API_KEY w)) eqn:Hk;
    [ apply for_lines_no_key in E; [|assumption];
      destruct E as (_ & _ & evs & T & P); exists evs;
      rewrite P; cbn; repeat split; auto; lia
    | destruct (DEEPL_API_KEY w) as [[|c k]|] eqn:Ek; try discriminate;
      apply (for_lines_requests service lang form (c :: k)) in E;
      [|assumption|discriminate];
      destruct E as (_ & _ & evs & rest & T & R & _); exists evs;
      split; [assumption|];
      pose proof (to_translate_bound lines None) as [B1 B2];
      apply (f_equal (@length event)) in R;
      rewrite length_map, length_app in R;
      change (buffer_old_text init) with (@None str) in R;
      cbn in B1; lia ].
Qed.

Lemma slice_incl a b (s : str) x : In x (Re.slice a b s) -> In x s.
Proof.
  unfold Re.slice. intros H.
  assert (F : forall n (l : str), In x (firstn n l) -> In x l).
  { induction n as [|n IHn]; intros [|c l] Hin; cbn in Hin;
      try contradiction.
    destruct Hin as [<-|Hin]; [now left|right; now apply IHn]. }
  apply F in H. clear F.
  revert s H. induction a as [|a IH]; intros s H; [exact H|].
  destruct s as [|c s]; [contradiction|]. right. now apply IH.
Qed.

Lemma old_match_incl line t x : old_match line = Some t -> In x t -> In x line.
Proof.
  unfold old_match, Re.match_group1.
  destruct (Re.run old_pattern 0 0 0 line) as [r|]; [|discriminate].
  intros H; injection H as <-. apply slice_incl.
Qed.

Section Returns.

Variable service : list event -> request -> reply.
Variables lang form : str.
Hypothesis Hservice : plain_replies service.

Lemma for_lines_returns k lines : forall st w,
  DEEPL_API_KEY w = Some k -> k <> [] ->
  Forall (fun l => ~ In backslash l) lines ->
  (forall b, buffer_old_text st = Some b -> ~ In backslash b) ->
  exists st' w', for_lines service lang form st lines w = (Ok st', w').
Proof.
  induction lines as [|l lines IH]; intros st w Hk Hne Hl Hb.
  - cbn. unfold ret. eauto.
  - inversion Hl as [|? ? Hl1 Hl2]; subst.
    assert (Step : exists st1 w1,
               loop_body service lang form st l w = (Ok st1, w1) /\
               DEEPL_API_KEY w1 = Some k /\
               (forall b, buffer_old_text st1 = Some b -> ~ In backslash b)).
    { assert (Echo : loop_body service lang form st l w =
                     (Ok (Scan (pending_step (buffer_old_text st) l)
                               (output_lines st ++ [l])), w) ->
                     exists st1 w1,
                       loop_body service lang form st l w = (Ok st1, w1) /\
                       DEEPL_API_KEY w1 = Some k /\
                       (forall b, buffer_old_text st1 = Some b ->
                                  ~ In backslash b)).
      { intros E. rewrite E. do 2 eexists. split; [reflexivity|].
        split; [assumption|]. cbn [buffer_old_text]. unfold pending_step.
        intros b. destruct (old_match l) as [t|] eqn:Eo.
        - intros H; injection H as <-. intros Hin. apply Hl1.
          eapply old_match_incl; eassumption.
        - destruct (new_match l); [discriminate|apply Hb]. }
      destruct (old_match l) as [t|] eqn:Eo.
      { apply Echo, loop_body_echo. left. congruence. }
      destruct (new_match l) as [p|] eqn:En.
      2:{ apply Echo, loop_body_echo. auto. }
      destruct (buffer_old_text st) as [b|] eqn:Eb.
      2:{ apply Echo. rewrite <- Eb. apply loop_body_echo. auto. }
      destruct (strip_is_empty p) eqn:Es.
      2:{ apply Echo. rewrite <- Eb. apply loop_body_echo.
          right; right; right; eauto. }
      clear Echo. unfold loop_body. rewrite Eo, En, Eb, Es.
      unfold bind at 1.
      rewrite (translate_text_with_key service lang form b k w Hk Hne).
      cbv zeta.
      pose proof (Hservice (trace w ++ [CallTranslate b lang form])
                           (params_of k b lang form)) as Hr.
      destruct (service _ _) as [|tr|]; [| |contradiction].
      - unfold Re.sub.
        rewrite parse_template_plain
          by (apply new_line_template_plain; now apply Hb).
        unfold ret. do 2 eexists. split; [reflexivity|].
        split; [reflexivity|discriminate].
      - unfold Re.sub.
        rewrite parse_template_plain
          by (now apply new_line_template_plain).
        unfold ret. do 2 eexists. split; [reflexivity|].
        split; [reflexivity|discriminate]. }
    destruct Step as (st1 & w1 & E1 & K1 & B1).
    destruct (IH st1 w1 K1 Hne Hl2 B1) as (st' & w' & E').
    exists st', w'. cbn [for_lines]. unfold bind. now rewrite E1.
Qed.

End Returns.

(** X14.  With a credential, a service whose replies can be read and
    whose translations hold no backslash, and a file without a backslash,
    the scan returns: a request that fails does not stop it, and nothing
    else raises. *)
Theorem X14_scan_returns :
  forall service lang form k lines w,
    plain_replies service ->
    DEEPL_API_KEY w = Some k -> k <> [] ->
    Forall (fun l => ~ In backslash l) lines ->
    exists out w', process_lines service lang form lines w = (Ok out, w').
Proof.
  intros service lang form k lines w Hs Hk Hne Hl.
  destruct (for_lines_returns service lang form Hs k lines init w Hk Hne Hl)
    as (st' & w' & E); [discriminate|].
  exists (output_lines st'), w'. unfold process_lines, bind. now rewrite E.
Qed.

(* ================================================================== *)
(** ** Further properties: the order of the files *)

Section Order.

Variable service : list event -> request -> reply.
Variable child : str -> path.
Variable iterdir : option (list path).
Variables is_dir path_exists : path -> bool.
Variable rglob_rpy : path -> list path.

Lemma announced_app a b : announced (a ++ b) = announced a ++ announced b.
Proof. apply flat_map_app. Qed.

Lemma process_each_app target form a : forall b w,
  process_each service target form (a ++ b) w =
  match process_each service target form a w with
  | (Ok _, w1) => process_each service target form b w1
  | (Raised e, w1) => (Raised e, w1)
  end.
Proof.
  induction a as [|f a IH]; intros b w; [reflexivity|].
  cbn [app process_each].
  destruct (process_rpy_file service f target form w) as [[u|e] w1];
    [apply IH|reflexivity].
Qed.

Lemma for_rpy_files_order target form fs : forall w out r w' out',
  Cli.for_rpy_files service target form fs w out = (r, w', out') ->
  exists done,
    announced out' = announced out ++ done /\
    ran_in_order service target form fs w r w' done.
Proof.
  induction fs as [|f fs IH]; intros w out r w' out' H.
  - cbn in H. injection H as <- <- <-. exists [].
    rewrite app_nil_r. split; [reflexivity|]. split; [reflexivity|].
    exists []. repeat split; auto. discriminate.
  - cbn [Cli.for_rpy_files] in H. unfold ran_in_order. cbn [process_each].
    destruct (process_rpy_file service f target form w) as [[u|e] w1] eqn:E.
    + apply IH in H. destruct H as (done & A & P & rest & F & Z & R).
      exists (f :: done). rewrite A, announced_app, <- app_assoc.
      split; [reflexivity|]. split; [exact P|].
      exists rest. split; [now rewrite F|]. split; [exact Z|].
      intros e Hr. destruct (R e Hr) as (before & g & w2 & D & B & G).
      exists (f :: before), g, w2. split; [now rewrite D|].
      split; [|exact G]. cbn [process_each]. now rewrite E.
    + injection H as <- <- <-. exists [f]. rewrite announced_app.
      split; [reflexivity|]. split; [reflexivity|].
      exists fs. split; [reflexivity|]. split; [discriminate|].
      intros e' Hr. injection Hr as <-. exists [], f, w.
      repeat split; auto.
Qed.

Lemma for_lang_dirs_order target form dirs : forall w out r w' out',
  Cli.for_lang_dirs service is_dir rglob_rpy target form dirs w out
  = (r, w', out') ->
  exists done,
    announced out' = announced out ++ done /\
    ran_in_order service target form (flat_map rglob_rpy (filter is_dir dirs))
                 w r w' done.
Proof.
  induction dirs as [|d dirs IH]; intros w out r w' out' H.
  - cbn in H. injection H as <- <- <-. exists [].
    rewrite app_nil_r. split; [reflexivity|]. split; [reflexivity|].
    exists []. repeat split; auto. discriminate.
  - cbn [Cli.for_lang_dirs filter] in H |- *.
    destruct (is_dir d) eqn:Ed; cbn [negb flat_map] in H |- *.
    2:{ now apply IH in H. }
    destruct (Cli.for_rpy_files service target form (rglob_rpy d) w
                (out ++ [Cli.ProcessingDirectory d]))
      as [[[u|e] w1] out1] eqn:E;
      apply for_rpy_files_order in E;
      destruct E as (done1 & A1 & P1 & rest1 & F1 & Z1 & R1);
      rewrite announced_app in A1; cbn in A1; rewrite app_nil_r in A1.
    + destruct u. rewrite (Z1 eq_refl), app_nil_r in F1.
      apply IH in H. destruct H as (done & A & P & rest & F & Z & R).
      exists (done1 ++ done). rewrite A, A1, <- app_assoc.
      split; [reflexivity|]. unfold ran_in_order.
      rewrite process_each_app, P1. split; [exact P|].
      exists rest. split; [now rewrite F1, F, <- app_assoc|].
      split; [exact Z|].
      intros e Hr. destruct (R e Hr) as (before & g & w2 & D & B & G).
      exists (done1 ++ before), g, w2.
      split; [now rewrite D, <- app_assoc|]. split; [|exact G].
      rewrite process_each_app. rewrite <- F1, P1. exact B.
    + injection H as <- <- <-. exists done1.
      split; [exact A1|]. unfold ran_in_order.
      rewrite process_each_app, P1. split; [reflexivity|].
      exists (rest1 ++ flat_map rglob_rpy (filter is_dir dirs)).
      split; [now rewrite F1, <- app_assoc|]. split; [discriminate|].
      intros e' Hr. destruct (R1 e' Hr) as (before & g & w2 & D & B & G).
      exists before, g, w2. auto.
Qed.

Lemma main_order args w r w' out :
  Cli.main service child iterdir is_dir path_exists rglob_rpy args w
  = (r, w', out) ->
  (Cli.all args = true -> iterdir <> None) ->
  ran_in_order service (resolve_target_lang (Cli.language args))
               (Cli.formality_arg args)
               (Cli.visited child iterdir is_dir path_exists rglob_rpy args)
               w r w' (announced out).
Proof.
  unfold Cli.main, Cli.visited. destruct (Cli.all args).
  - destruct iterdir as [entries|].
    + intros H _. apply for_lang_dirs_order in H.
      destruct H as (done & A & P). rewrite filter_twice in P.
      cbn in A. now rewrite A.
    + intros _ Hi. now destruct (Hi eq_refl).
  - destruct (path_exists (child (lower (Cli.language args)))) eqn:Ee;
      cbn [negb andb].
    + intros H _. apply for_lang_dirs_order in H.
      destruct H as (done & A & P). cbn [filter] in P.
      cbn in A. rewrite A.
      destruct (is_dir (child (lower (Cli.language args))));
        cbn [flat_map] in P; [now rewrite app_nil_r in P|exact P].
    + intros H _; injection H as <- <- <-. split; [reflexivity|].
      exists []. repeat split; auto. discriminate.
Qed.

End Order.

(** X15.  [main] is [process_rpy_file] run on the scripts one after the
    other, in the order the directories and [rglob] list them, each run
    starting in the world the run before left and the first run that
    raises ending it: the result and the world of [main] are those of
    [process_each] on [visited].  The files it announced are the first
    of [visited], all of them when it returns; when it raises, the last
    file announced is the one whose run raised, after the runs on the
    files before it returned.  (In the mode for all languages this
    supposes that the directory of the translations can be listed.) *)
Theorem X15_main_keeps_the_listing_order :
  forall service child iterdir is_dir path_exists rglob_rpy args w r w' out,
    Cli.main service child iterdir is_dir path_exists rglob_rpy args w
    = (r, w', out) ->
    (Cli.all args = true -> iterdir <> None) ->
    let target := resolve_target_lang (Cli.language args) in
    let form := Cli.formality_arg args in
    process_each service target form
      (Cli.visited child iterdir is_dir path_exists rglob_rpy args) w
    = (r, w') /\
    exists rest,
      Cli.visited child iterdir is_dir path_exists rglob_rpy args
      = announced out ++ rest /\
      (r = Ok tt -> rest = []) /\
      (forall e, r = Raised e ->
         exists before f w1,
           announced out = before ++ [f] /\
           process_each service target form before w = (Ok tt, w1) /\
           process_rpy_file service f target form w1 = (Raised e, w')).
Proof.
  intros service child iterdir is_dir path_exists rglob_rpy args w r w' out
         H Hi.
  exact (main_order service child iterdir is_dir path_exists rglob_rpy
           args w r w' out H Hi).
Qed.

(* ================================================================== *)
(** ** The further properties at concrete runs *)

Ltac not_in_text :=
  let H := fresh "H" in
  intros H; vm_compute in H;
  repeat (destruct H as [H|H]; [discriminate H|]); exact H.

Lemma X1_patterns_match_shape_run :
  let line := decl Demo.indent "old" (lit "Hi") in
  ~ In LF line /\
  (old_match line = Some (lit "Hi")
   <-> declaration_shape (lit "old") line (lit "Hi")).
Proof.
  intros line.
  assert (Hlf : ~ In LF line) by not_in_text.
  split; [exact Hlf|].
  exact (proj1 (X1_patterns_match_shape line (lit "Hi") Hlf)).
Defined.

Lemma X3_blank_target_rewritten_run :
  let st := Scan (Some (lit "Hi")) [decl Demo.indent "old" (lit "Hi")] in
  let line := lit "  new" ++ [9%N; 32%N; quote; quote] ++ lit " # todo" in
  let w1 := World (Some (lit "secret")) (fun _ => None)
              [CallTranslate (lit "Hi") Demo.DE Demo.default;
               Post (Request (lit "secret") (lit "Hi") Demo.DE None)] in
  new_match line = Some [] /\
  ~ In LF line /\
  ~ In backslash (lit "Hallo") /\
  translate_text (Demo.answers (lit "Hallo")) (lit "Hi") Demo.DE Demo.default
                 Demo.with_key = (Ok (lit "Hallo"), w1) /\
  exists ws sp tail,
    line = ws ++ lit "new" ++ sp ++ quote :: [] ++ quote :: tail /\
    forallb is_space ws = true /\ sp <> [] /\ forallb is_space sp = true /\
    ~ In quote tail /\
    loop_body (Demo.answers (lit "Hallo")) Demo.DE Demo.default st line
              Demo.with_key =
    (Ok (Scan None
           (output_lines st
            ++ [ws ++ lit "new " ++ quote :: lit "Hallo" ++ quote :: tail])),
     w1).
Proof.
  intros st line w1.
  assert (Hlf : ~ In LF line) by not_in_text.
  assert (Hbs : ~ In backslash (lit "Hallo")) by not_in_text.
  split; [reflexivity|]. split; [exact Hlf|]. split; [exact Hbs|].
  split; [reflexivity|].
  exact (X3_blank_target_rewritten (Demo.answers (lit "Hallo")) Demo.DE
           Demo.default st line [] (lit "Hi") (lit "Hallo") Demo.with_key w1
           eq_refl eq_refl Hlf eq_refl eq_refl Hbs).
Defined.


Lemma X5_requests_of_a_scan_run :
  let lines := [decl Demo.indent "old" (lit "One");
                decl Demo.indent "old" (lit "Two");
                lit "# between";
                decl Demo.indent "new" [];
                decl Demo.indent "new" []] in
  let out := process_lines (Demo.answers (lit "Zwei")) Demo.DE Demo.default
                           lines Demo.with_key in
  to_translate None lines = [lit "Two"] /\
  exists evs rest,
    trace (snd out) = trace Demo.with_key ++ evs /\
    List.map (fun b => Post (params_of (lit "secret") b Demo.DE Demo.default))
             (to_translate None lines)
    = filter is_post evs ++ rest /\
    (forall o, fst out = Ok o -> rest = []).
Proof.
  intros lines out. split; [reflexivity|].
  refine (X5_requests_of_a_scan (Demo.answers (lit "Zwei")) Demo.DE
            Demo.default (lit "secret") lines Demo.with_key (fst out)
            (snd out) eq_refl _ _).
  - discriminate.
  - reflexivity.
Defined.

Lemma X6_file_written_last_run :
  let rpy_path := lit "script.rpy" in
  let content := decl Demo.indent "old" (lit "Open C:\Users")
                 ++ LF :: decl Demo.indent "new" [] in
  let w := Demo.one_file rpy_path content in
  let w1 := World (Some (lit "secret")) (files w)
              [CallTranslate (lit "Open C:\Users") Demo.DE Demo.default;
               Post (Request (lit "secret") (lit "Open C:\Users") Demo.DE
                             None);
               PrintError] in
  process_rpy_file Demo.unreachable rpy_path Demo.DE Demo.default w
  = (Raised TemplateError, w1) /\
  files w rpy_path = Some content /\
  process_lines Demo.unreachable Demo.DE Demo.default
                (splitlines (universal_newlines content)) w
  = (Raised TemplateError, w1) /\
  files w1 = files w /\
  only_rewrites [rpy_path] w w1.
Proof.
  intros rpy_path content w w1.
  assert (Hrun : process_rpy_file Demo.unreachable rpy_path Demo.DE
                                  Demo.default w = (Raised TemplateError, w1))
    by reflexivity.
  split; [exact Hrun|]. split; [reflexivity|]. split; [reflexivity|].
  destruct (X6_file_written_last Demo.unreachable rpy_path Demo.DE
              Demo.default w (Raised TemplateError) w1 Hrun)
    as (Hfr & Hscan & _).
  split; [|exact Hfr].
  exact (proj2 (proj2 (Hscan content TemplateError w1 eq_refl eq_refl))).
Defined.

Lemma X7_lines_written_are_read_back_run :
  let ls := [decl Demo.indent "old" (lit "Hi"); [];
             decl Demo.indent "new" (lit "Hallo")] in
  forallb one_line ls = true /\ no_final_empty ls = true /\
  splitlines (universal_newlines (join_lines ls)) = ls.
Proof.
  intros ls. split; [reflexivity|]. split; [reflexivity|].
  exact (X7_lines_written_are_read_back ls eq_refl eq_refl).
Defined.

Lemma X9_code_is_upper_case_and_fixed_run :
  is_ascii (lit "pt-br") = true /\
  resolve_target_lang (lit "pt-br") = lit "PT-BR" /\
  no_lower_ascii (resolve_target_lang (lit "pt-br")) = true /\
  resolve_target_lang (resolve_target_lang (lit "pt-br"))
  = resolve_target_lang (lit "pt-br").
Proof.
  split; [reflexivity|]. split; [reflexivity|].
  exact (X9_code_is_upper_case_and_fixed (lit "pt-br") eq_refl).
Defined.

Lemma X10_main_rewrites_only_the_scripts_run :
  let args := Cli.Namespace (lit "German") true (lit "default") in
  let w := DemoTree.world0 (Some (lit "secret")) in
  let run := Cli.main (Demo.answers (lit "Hallo")) DemoTree.child
                      DemoTree.iterdir DemoTree.is_dir DemoTree.path_exists
                      DemoTree.rglob_rpy args w in
  let touched := Cli.visited DemoTree.child DemoTree.iterdir DemoTree.is_dir
                             DemoTree.path_exists DemoTree.rglob_rpy args in
  touched = [DemoTree.script (DemoTree.tl "german");
             DemoTree.script (DemoTree.tl "french")] /\
  fst (fst run) = Ok tt /\
  only_rewrites touched w (snd (fst run)) /\
  (touched = [] -> snd (fst run) = w).
Proof.
  intros args w run touched. split; [reflexivity|]. split; [reflexivity|].
  exact (X10_main_rewrites_only_the_scripts (Demo.answers (lit "Hallo"))
           DemoTree.child DemoTree.iterdir DemoTree.is_dir
           DemoTree.path_exists DemoTree.rglob_rpy args w
           (fst (fst run)) (snd (fst run)) (snd run) eq_refl).
Defined.

Lemma X11_main_requests_run :
  let args := Cli.Namespace (lit "German") true (lit "MORE") in
  let w := DemoTree.world0 (Some (lit "secret")) in
  let run := Cli.main (Demo.answers (lit "Hallo")) DemoTree.child
                      DemoTree.iterdir DemoTree.is_dir DemoTree.path_exists
                      DemoTree.rglob_rpy args w in
  filter is_post (trace (snd (fst run)))
  = [Post (Request (lit "secret") (lit "Hi") (lit "DE") (Some (lit "more")));
     Post (Request (lit "secret") (lit "Hi") (lit "DE") (Some (lit "more")))] /\
  exists evs,
    trace (snd (fst run)) = trace w ++ evs /\
    Forall (request_of_run w (resolve_target_lang (Cli.language args))) evs.
Proof.
  intros args w run. split; [reflexivity|].
  exact (X11_main_requests (Demo.answers (lit "Hallo")) DemoTree.child
           DemoTree.iterdir DemoTree.is_dir DemoTree.path_exists
           DemoTree.rglob_rpy args w (fst (fst run)) (snd (fst run))
           (snd run) eq_refl).
Defined.

Lemma X12_only_the_declaration_is_replaced_run :
  let st := Scan (Some (lit "a\nb")) [] in
  let line := lit "new " ++ [quote; quote] ++ lit " # todo" in
  let w1 := World (Some (lit "secret")) (fun _ => None)
              [CallTranslate (lit "a\nb") Demo.DE Demo.default;
               Post (Request (lit "secret") (lit "a\nb") Demo.DE None);
               PrintError] in
  new_match line = Some [] /\
  ~ In LF line /\
  translate_text Demo.unreachable (lit "a\nb") Demo.DE Demo.default
                 Demo.with_key = (Ok (lit "a\nb"), w1) /\
  loop_body Demo.unreachable Demo.DE Demo.default st line Demo.with_key
  = (Ok (Scan None [lit "new " ++ quote :: lit "a" ++ LF :: lit "b"
                    ++ quote :: lit " # todo"]), w1) /\
  exists ws sp tail,
    line = ws ++ lit "new" ++ sp ++ quote :: [] ++ quote :: tail /\
    forallb is_space ws = true /\ ~ In quote tail /\
    match Re.parse_template Re.Normal (new_line_template (lit "a\nb")) with
    | None =>
        loop_body Demo.unreachable Demo.DE Demo.default st line Demo.with_key
        = (Raised TemplateError, w1)
    | Some t =>
        loop_body Demo.unreachable Demo.DE Demo.default st line Demo.with_key
        = (Ok (Scan None
                 (output_lines st
                  ++ [ws ++ Re.expand t (lit "new" ++ sp ++ quote :: []
                                         ++ [quote])
                         ++ tail])),
           w1)
    end.
Proof.
  intros st line w1.
  assert (Hlf : ~ In LF line) by not_in_text.
  split; [reflexivity|]. split; [exact Hlf|]. split; [reflexivity|].
  split; [reflexivity|].
  exact (X12_only_the_declaration_is_replaced Demo.unreachable Demo.DE
           Demo.default st line [] (lit "a\nb") (lit "a\nb") Demo.with_key w1
           eq_refl eq_refl Hlf eq_refl eq_refl).
Defined.

Lemma X13_at_most_one_request_per_pair_run :
  let lines := [decl Demo.indent "old" (lit "One");
                decl Demo.indent "new" [];
                decl Demo.indent "new" [];
                decl Demo.indent "old" (lit "Two");
                decl Demo.indent "old" (lit "Three")] in
  let run := process_lines (Demo.answers (lit "Eins")) Demo.DE Demo.default
                           lines Demo.with_key in
  length (filter is_post (trace (snd run))) = 1 /\
  length (filter is_source lines) = 3 /\
  length (filter is_blank_target lines) = 2 /\
  exists evs,
    trace (snd run) = trace Demo.with_key ++ evs /\
    length (filter is_post evs) <= length (filter is_source lines) /\
    length (filter is_post evs) <= length (filter is_blank_target lines).
Proof.
  intros lines run. split; [reflexivity|]. split; [reflexivity|].
  split; [reflexivity|].
  exact (X13_at_most_one_request_per_pair (Demo.answers (lit "Eins")) Demo.DE
           Demo.default lines Demo.with_key (fst run) (snd run) eq_refl).
Defined.

Lemma X14_scan_returns_run :
  let lines := [decl Demo.indent "old" (lit "Hi");
                decl Demo.indent "new" []] in
  plain_replies Demo.unreachable /\
  Forall (fun l => ~ In backslash l) lines /\
  exists out w',
    process_lines Demo.unreachable Demo.DE Demo.default lines Demo.with_key
    = (Ok out, w').
Proof.
  intros lines.
  assert (Hs : plain_replies Demo.unreachable) by (intros h r; exact I).
  assert (Hl : Forall (fun l => ~ In backslash l) lines)
    by (repeat constructor; not_in_text).
  split; [exact Hs|]. split; [exact Hl|].
  refine (X14_scan_returns Demo.unreachable Demo.DE Demo.default
            (lit "secret") lines Demo.with_key Hs eq_refl _ Hl).
  discriminate.
Defined.

Lemma X15_main_keeps_the_listing_order_run :
  let args := Cli.Namespace (lit "german") true (lit "default") in
  let w := DemoTree.world0 None in
  let german := DemoTree.script (DemoTree.tl "german") in
  let french := DemoTree.script (DemoTree.tl "french") in
  let w' := World None (files w)
              [CallTranslate (lit "Hi") (lit "DE") (lit "default")] in
  let r : result unit := Raised ValueError in
  Cli.main Demo.unreachable DemoTree.child DemoTree.iterdir
           DemoTree.is_dir DemoTree.path_exists DemoTree.rglob_rpy args w
  = (r, w',
     [Cli.ProcessingDirectory (DemoTree.tl "german");
      Cli.Translating german]) /\
  DemoTree.iterdir <> None /\
  Cli.visited DemoTree.child DemoTree.iterdir DemoTree.is_dir
              DemoTree.path_exists DemoTree.rglob_rpy args
  = [german; french] /\
  process_each Demo.unreachable (lit "DE") (lit "default") [german; french] w
  = (r, w') /\
  exists rest,
    [german; french] = [german] ++ rest /\
    (r = Ok tt -> rest = []) /\
    (forall e, r = Raised e ->
       exists before f w1,
         [german] = before ++ [f] /\
         process_each Demo.unreachable (lit "DE") (lit "default") before w
         = (Ok tt, w1) /\
         process_rpy_file Demo.unreachable f (lit "DE") (lit "default") w1
         = (Raised e, w')).
Proof.
  intros args w german french w' r.
  assert (Hi : DemoTree.iterdir <> None) by discriminate.
  split; [reflexivity|]. split; [exact Hi|]. split; [reflexivity|].
  exact (X15_main_keeps_the_listing_order Demo.unreachable DemoTree.child
           DemoTree.iterdir DemoTree.is_dir DemoTree.path_exists
           DemoTree.rglob_rpy args w r w'
           [Cli.ProcessingDirectory (DemoTree.tl "german");
            Cli.Translating german]
           eq_refl (fun _ => Hi)).
Defined.
